(** * hanair_data.table_updater: the HTML table scanner

    A shallow embedding of [_TableParser], of the parsing half of
    [fetch_table_rows] and of [_write_rows]
    (src/hanair_data/table_updater.py), with the properties of the
    scanner, of the cell normaliser and of the column widths.

    Python's [str] is a sequence of Unicode code points: a string is a
    [list N] here, so that the non-breaking space U+00A0 and the Unicode
    white space recognised by [str.strip], [str.split] and [str.splitlines]
    are what they are in Python.  Python's [int] is unbounded: [Z].

    [HTMLParser.feed] belongs to Python's standard library.  It turns the
    markup into a sequence of handler calls; the scanner is what the four
    overridden handlers do with that sequence, so the input of the model is
    the sequence of handler calls ([event]). *)

From Stdlib Require Import String Ascii List ZArith NArith Bool Lia.
Import ListNotations.

(** ** Python strings *)

Module PyStr.

Definition char := N.
Definition str := list char.

(** An ASCII literal as a Python string. *)
Definition py (s : string) : str :=
  map N_of_ascii (list_ascii_of_string s).

Definition LF : char := 10%N.
Definition CR : char := 13%N.
Definition SP : char := 32%N.
Definition NBSP : char := 160%N.   (* "\xa0" *)

Fixpoint eqb (a b : str) : bool :=
  match a, b with
  | [], [] => true
  | x :: a', y :: b' => N.eqb x y && eqb a' b'
  | _, _ => false
  end.

(** [str.isspace] on one code point: the ASCII white space of CPython's
    table (U+0009..U+000D, U+001C..U+0020) and the Unicode white space
    (U+0085, U+00A0, U+1680, U+2000..U+200A, U+2028, U+2029, U+202F, U+205F,
    U+3000). *)
Definition isspace (c : char) : bool :=
  ((9 <=? c) && (c <=? 13) || (28 <=? c) && (c <=? 32)
   || (c =? 133) || (c =? 160) || (c =? 5760)
   || (8192 <=? c) && (c <=? 8202)
   || (c =? 8232) || (c =? 8233) || (c =? 8239) || (c =? 8287)
   || (c =? 12288))%N.

(** The line boundaries of [str.splitlines]: \n \v \f \r \x1c \x1d \x1e
    \x85 U+2028 U+2029 (and \r\n, taken as one boundary). *)
Definition islinebreak (c : char) : bool :=
  ((10 <=? c) && (c <=? 13) || (28 <=? c) && (c <=? 30)
   || (c =? 133) || (c =? 8232) || (c =? 8233))%N.

(** [str.lower], on the ASCII range.  Outside it Python consults the
    Unicode tables; no code point outside ASCII lowers to a string made of
    the letters of "table", "tr", "td", "th" or "br", the only strings a
    lowered tag is compared with. *)
Definition lower_char (c : char) : char :=
  (if (65 <=? c) && (c <=? 90) then c + 32 else c)%N.

Definition lower (s : str) : str := map lower_char s.

(** [sep.join(parts)] *)
Fixpoint join (sep : str) (parts : list str) : str :=
  match parts with
  | [] => []
  | [p] => p
  | p :: ps => p ++ sep ++ join sep ps
  end.

(** [s.replace(a, b)] for one-character [a] and [b]. *)
Definition replace_char (a b : char) (s : str) : str :=
  map (fun c => if N.eqb c a then b else c) s.

(** [c in s] for a one-character [c]. *)
Definition contains (c : char) (s : str) : bool :=
  existsb (N.eqb c) s.

Fixpoint lstrip (s : str) : str :=
  match s with
  | [] => []
  | c :: r => if isspace c then lstrip r else s
  end.

Fixpoint rstrip (s : str) : str :=
  match s with
  | [] => []
  | c :: r =>
      match rstrip r with
      | [] => if isspace c then [] else [c]
      | r' => c :: r'
      end
  end.

(** [s.strip()] *)
Definition strip (s : str) : str := rstrip (lstrip s).

(** Does the string stop here, or go on with white space? *)
Definition word_ends (r : str) : bool :=
  match r with
  | [] => true
  | c :: _ => isspace c
  end.

(** [s.split()]: the maximal runs of non-white-space characters. *)
Fixpoint split (s : str) : list str :=
  match s with
  | [] => []
  | c :: r =>
      if isspace c then split r
      else if word_ends r then [c] :: split r
      else match split r with
           | w :: ws => (c :: w) :: ws
           | [] => [[c]]
           end
  end.

(** [s.splitlines()]: the pieces between line boundaries, without the
    boundaries; a boundary at the very end opens no further line. *)
Fixpoint splitlines (s : str) : list str :=
  match s with
  | [] => []
  | c :: r =>
      if islinebreak c then
        [] :: match r with
              | c' :: r' =>
                  if N.eqb c CR && N.eqb c' LF then splitlines r'
                  else splitlines r
              | [] => []
              end
      else match splitlines r with
           | l :: ls => (c :: l) :: ls
           | [] => [[c]]
           end
  end.

End PyStr.

Import PyStr.

(** ** The scanner: [_TableParser] *)

(** The exceptions: [ValueError], which both failures of the module raise,
    [TypeError], which Python raises for a call that does not fit the
    signature, and the exceptions of a library, by the name of their
    class. *)
Inductive exn : Type :=
| ValueError (msg : string)
| TypeError (msg : string)
| LibraryError (cls : string) (msg : string).

Definition result (A : Type) : Type := (exn + A)%type.

Definition raise {A : Type} (e : exn) : result A := inl e.
Definition ret {A : Type} (a : A) : result A := inr a.
Definition bind {A B : Type} (m : result A) (k : A -> result B) : result B :=
  match m with
  | inl e => inl e
  | inr a => k a
  end.

Notation "x <- m ;; k" := (bind m (fun x => k))
  (at level 61, m at next level, right associativity).

(** The attributes of a start tag, as [HTMLParser] hands them over. *)
Definition attrs := list (str * option str).

(** The handler calls [HTMLParser.feed] makes. *)
Inductive event : Type :=
| StartTag (tag : str) (a : attrs)
| EndTag (tag : str)
| Data (data : str)
| StartEndTag (tag : str) (a : attrs).

Definition row := list str.

(** The instance attributes set by [__init__]. *)
Record TableParser : Type := mkParser {
  target_index : Z;
  current_index : Z;
  capture : bool;
  table_depth : Z;
  in_row : bool;
  in_cell : bool;
  rows : list row;
  current_row : row;
  cell_parts : list str
}.

Definition with_current_index (v : Z) (s : TableParser) : TableParser :=
  mkParser (target_index s) v (capture s) (table_depth s) (in_row s)
    (in_cell s) (rows s) (current_row s) (cell_parts s).

Definition with_capture (v : bool) (s : TableParser) : TableParser :=
  mkParser (target_index s) (current_index s) v (table_depth s) (in_row s)
    (in_cell s) (rows s) (current_row s) (cell_parts s).

Definition with_table_depth (v : Z) (s : TableParser) : TableParser :=
  mkParser (target_index s) (current_index s) (capture s) v (in_row s)
    (in_cell s) (rows s) (current_row s) (cell_parts s).

Definition with_in_row (v : bool) (s : TableParser) : TableParser :=
  mkParser (target_index s) (current_index s) (capture s) (table_depth s) v
    (in_cell s) (rows s) (current_row s) (cell_parts s).

Definition with_in_cell (v : bool) (s : TableParser) : TableParser :=
  mkParser (target_index s) (current_index s) (capture s) (table_depth s)
    (in_row s) v (rows s) (current_row s) (cell_parts s).

Definition with_rows (v : list row) (s : TableParser) : TableParser :=
  mkParser (target_index s) (current_index s) (capture s) (table_depth s)
    (in_row s) (in_cell s) v (current_row s) (cell_parts s).

Definition with_current_row (v : row) (s : TableParser) : TableParser :=
  mkParser (target_index s) (current_index s) (capture s) (table_depth s)
    (in_row s) (in_cell s) (rows s) v (cell_parts s).

Definition with_cell_parts (v : list str) (s : TableParser) : TableParser :=
  mkParser (target_index s) (current_index s) (capture s) (table_depth s)
    (in_row s) (in_cell s) (rows s) (current_row s) v.

(** The attributes of a parser that [__init__] has just built. *)
Definition fresh (target : Z) : TableParser :=
  mkParser target (-1) false 0 false false [] [] [].

(** [_TableParser.__init__] *)
Definition init (target : Z) : result TableParser :=
  if (target <? 0)%Z then raise (ValueError "table index must be >= 0")
  else ret (fresh target).

Definition is_tag (name : string) (tag : str) : bool :=
  PyStr.eqb (lower tag) (py name).

(** [handle_starttag] below its first [if]: the row, cell and line-break
    tags of a captured table. *)
Definition starttag_in_table (s : TableParser) (tag : str) : TableParser :=
  if negb (capture s) then s
  else if is_tag "tr" tag then
    with_current_row [] (with_in_row true s)
  else if is_tag "td" tag || is_tag "th" tag then
    with_cell_parts [] (with_in_cell true s)
  else if is_tag "br" tag && in_cell s then
    with_cell_parts (cell_parts s ++ [[LF]]) s
  else s.

Definition handle_starttag (s : TableParser) (tag : str) (a : attrs)
  : TableParser :=
  if is_tag "table" tag then
    let s1 := with_current_index (current_index s + 1) s in
    if (current_index s1 =? target_index s1)%Z then
      with_table_depth 1 (with_capture true s1)
    else if capture s1 then
      with_table_depth (table_depth s1 + 1) s1
    else starttag_in_table s1 tag
  else starttag_in_table s tag.

(** The text of a closed cell: the four statements of [handle_endtag]
    that turn [_cell_parts] into the string appended to the row. *)
Definition cell_text (parts : list str) : str :=
  let text := replace_char NBSP SP (List.concat parts) in
  let text := join [LF] (map strip (splitlines text)) in
  let text := if negb (contains LF text) then join [SP] (split text)
              else text in
  strip text.

Definition handle_endtag (s : TableParser) (tag0 : str) : TableParser :=
  let tag := lower tag0 in
  if PyStr.eqb tag (py "table") && capture s then
    let s1 := with_table_depth (table_depth s - 1) s in
    if (table_depth s1 =? 0)%Z then with_capture false s1 else s1
  else if negb (capture s) then s
  else if (PyStr.eqb tag (py "td") || PyStr.eqb tag (py "th")) && in_cell s
  then
    with_cell_parts []
      (with_in_cell false
         (with_current_row (current_row s ++ [cell_text (cell_parts s)]) s))
  else if PyStr.eqb tag (py "tr") && in_row s then
    let s1 := match current_row s with
              | [] => s
              | _ :: _ => with_rows (rows s ++ [current_row s]) s
              end in
    with_current_row [] (with_in_row false s1)
  else s.

Definition handle_data (s : TableParser) (data : str) : TableParser :=
  if capture s && in_cell s then
    with_cell_parts (cell_parts s ++ [data]) s
  else s.

Definition handle_startendtag (s : TableParser) (tag : str) (a : attrs)
  : TableParser :=
  if is_tag "br" tag && capture s && in_cell s then
    with_cell_parts (cell_parts s ++ [[LF]]) s
  else s.

(** One handler call. *)
Definition handle (s : TableParser) (e : event) : TableParser :=
  match e with
  | StartTag tag a => handle_starttag s tag a
  | EndTag tag => handle_endtag s tag
  | Data d => handle_data s d
  | StartEndTag tag a => handle_startendtag s tag a
  end.

(** [parser.feed(html)], on the handler calls the markup gives rise to. *)
Definition feed (s : TableParser) (evs : list event) : TableParser :=
  fold_left handle evs s.

(** A call [_TableParser(keyword=value)].  [__init__] has one parameter
    besides [self], [target_index]: the call binds [value] to it when
    [keyword] is its name, and Python raises [TypeError] for any other
    keyword (in the wording of CPython 3.10 and later). *)
Definition call_init (keyword : string) (value : Z) : result TableParser :=
  if String.eqb keyword "target_index" then init value
  else raise (TypeError
    (String.append "_TableParser.__init__() got an unexpected keyword argument '"
       (String.append keyword "'"))).

(** Lines 140 to 147 of [fetch_table_rows]: feed the markup, take the
    rows, fail when there are none. *)
Definition rows_or_not_found (parser : TableParser) (html : list event)
  : result (list row) :=
  let parser := feed parser html in
  match rows parser with
  | [] => raise (ValueError
      "No table rows were found. Check that the page structure has not changed.")
  | _ :: _ => ret (rows parser)
  end.

(** [fetch_table_rows] from the construction of the parser on (line
    139); the download before it is the caller's, the time stamp after it
    too.  The parser is built with the keyword [table_index]. *)
Definition fetch_table_rows (html : list event) (table_index : Z)
  : result (list row) :=
  parser <- call_init "table_index" table_index ;;
  rows_or_not_found parser html.

(** ** Vocabulary of the properties *)

(** White space at the ends of a string. *)
Definition starts_space (s : str) : bool :=
  match s with
  | [] => false
  | c :: _ => isspace c
  end.

Fixpoint ends_space (s : str) : bool :=
  match s with
  | [] => false
  | c :: r =>
      match r with
      | [] => isspace c
      | _ :: _ => ends_space r
      end
  end.

Definition trimmed (s : str) : Prop :=
  starts_space s = false /\ ends_space s = false.

(** Every maximal run of white space becomes one space: a white-space
    character followed by another one goes, the last of a run is the
    space. *)
Fixpoint collapse_ws (s : str) : str :=
  match s with
  | [] => []
  | c :: r =>
      if isspace c then
        if starts_space r then collapse_ws r else SP :: collapse_ws r
      else c :: collapse_ws r
  end.

(** The finalisation of a cell in the words of the specification: replace
    the non-breaking spaces, split on line separators, trim each line,
    rejoin with line separators if there are several lines, and collapse
    the white-space runs otherwise. *)
Definition cell_text_spec (parts : list str) : str :=
  let text := replace_char NBSP SP (List.concat parts) in
  let lines := map strip (splitlines text) in
  if (1 <? length lines)%nat then join [LF] lines
  else collapse_ws (join [LF] lines).

(** Tags, written as the examples of the specification write them. *)
Definition otag (n : string) : event := StartTag (py n) [].
Definition ctag (n : string) : event := EndTag (py n).
Definition txt (n : string) : event := Data (py n).

Definition is_table_open (e : event) : bool :=
  match e with
  | StartTag tag _ => is_tag "table" tag
  | _ => false
  end.

Definition is_table_close (e : event) : bool :=
  match e with
  | EndTag tag => is_tag "table" tag
  | _ => false
  end.

Definition table_free (evs : list event) : bool :=
  forallb (fun e => negb (is_table_open e || is_table_close e)) evs.

(** The states the scanner goes through. *)
Inductive reachable : TableParser -> Prop :=
| reach_init : forall target s, init target = inr s -> reachable s
| reach_step : forall s e, reachable s -> reachable (handle s e).

(** The number of table-open boundaries of a markup. *)
Definition count_table_opens (evs : list event) : Z :=
  Z.of_nat (length (filter is_table_open evs)).

(** *** Sibling tables

    A table of the page with what precedes it: markup that opens no table,
    the table-open boundary, a body without table boundaries (nothing is
    nested) and the table-close boundary. *)
Record sibling : Type := mkSibling {
  before : list event;
  sopen : event;
  body : list event;
  sclose : event
}.

Definition table_events (t : sibling) : list event :=
  sopen t :: body t ++ [sclose t].

Definition sibling_events (t : sibling) : list event :=
  before t ++ table_events t.

Definition wf_sibling (t : sibling) : bool :=
  forallb (fun e => negb (is_table_open e)) (before t)
  && is_table_open (sopen t) && table_free (body t)
  && is_table_close (sclose t).

(** A page of sibling tables, and whatever follows the last of them. *)
Definition page (ts : list sibling) (trailer : list event) : list event :=
  flat_map sibling_events ts ++ trailer.

(** The rows of one table: what the scanner makes of that table alone. *)
Definition table_rows (t : sibling) : list row :=
  rows (feed (fresh 0) (table_events t)).

(** *** Well-formed rows

    Rows of cells, cells of text and line breaks, and the markup they
    stand for. *)
Inductive inline : Type :=
| Text (d : str)
| Br            (* <br> *)
| BrSelf.       (* <br/> *)

Record cell : Type := mkCell {
  header : bool;
  content : list inline
}.

Definition inline_event (i : inline) : event :=
  match i with
  | Text d => Data d
  | Br => StartTag (py "br") []
  | BrSelf => StartEndTag (py "br") []
  end.

Definition inline_part (i : inline) : str :=
  match i with
  | Text d => d
  | Br | BrSelf => [LF]
  end.

Definition cell_tag (c : cell) : str :=
  if header c then py "th" else py "td".

Definition cell_events (c : cell) : list event :=
  StartTag (cell_tag c) [] :: map inline_event (content c)
    ++ [EndTag (cell_tag c)].

Definition row_events (r : list cell) : list event :=
  otag "tr" :: flat_map cell_events r ++ [ctag "tr"].

Definition rows_events (rs : list (list cell)) : list event :=
  flat_map row_events rs.

Definition cell_value (c : cell) : str :=
  cell_text (map inline_part (content c)).

Definition nonempty_row (r : row) : bool :=
  match r with
  | [] => false
  | _ :: _ => true
  end.

(** The rows a well-formed table stands for. *)
Definition expected_rows (rs : list (list cell)) : list row :=
  filter nonempty_row (map (map cell_value) rs).

(** *** Text the scanner has no use for

    [live_events s evs] leaves out of [evs], fed to the scanner in state
    [s], every text-data event that arrives while the scanner is not
    capturing or has no cell open. *)
Fixpoint live_events (s : TableParser) (evs : list event) : list event :=
  match evs with
  | [] => []
  | Data d :: evs' =>
      if capture s && in_cell s then
        Data d :: live_events (handle s (Data d)) evs'
      else live_events s evs'
  | e :: evs' => e :: live_events (handle s e) evs'
  end.

(** What the scanner keeps true of its states. *)
Record consistent (s : TableParser) : Prop := mkConsistent {
  cons_target : (0 <= target_index s)%Z;
  cons_capturing :
    capture s = true -> (target_index s <= current_index s)%Z
                        /\ (1 <= table_depth s)%Z;
  cons_idle : capture s = false -> table_depth s = 0%Z;
  cons_rows : Forall (fun r => r <> []) (rows s);
  cons_cells : Forall (Forall trimmed) (rows s);
  cons_current : Forall trimmed (current_row s)
}.

(** The same attributes under other table indices. *)
Definition reindex (target current : Z) (s : TableParser) : TableParser :=
  mkParser target current (capture s) (table_depth s) (in_row s)
    (in_cell s) (rows s) (current_row s) (cell_parts s).

(** Two states at the same place among the tables. *)
Definition same_table (s s' : TableParser) : Prop :=
  capture s' = capture s /\ table_depth s' = table_depth s
  /\ target_index s' = target_index s /\ current_index s' = current_index s.

(** *** Sample inputs *)

(** <table><tr><td>A</td><td>B  C</td></tr><tr></tr></table> *)
Definition example_markup : list event :=
  [otag "table"; otag "tr"; otag "td"; txt "A"; ctag "td";
   otag "td"; txt "B  C"; ctag "td"; ctag "tr";
   otag "tr"; ctag "tr"; ctag "table"].

(** Two sibling tables, the first with two rows, the second with one. *)
Definition first_table : sibling :=
  mkSibling [txt "Flights"] (otag "table")
    (rows_events [[mkCell true [Text (py "No")]];
                  [mkCell false [Text (py "AB1")]]])
    (ctag "table").

Definition second_table : sibling :=
  mkSibling [otag "p"; txt "Gates"; ctag "p"] (StartTag (py "TABLE") [])
    (rows_events [[mkCell false [Text (py "Gate"); Br; Text (py " 3 ")];
                   mkCell false [Text (py "open")]]])
    (EndTag (py "TABLE")).

(** A scanner inside a cell of two lines. *)
Definition flight_cell : TableParser :=
  mkParser 0 0 true 1 true true [] []
    [py " Flight" ++ [NBSP] ++ py "AB1 "; [LF]; py "Gate 3"].

(** A scanner inside the first row of the target table, one cell read. *)
Definition in_first_row : TableParser :=
  feed (fresh 0) [otag "table"; otag "tr"; otag "td"; txt "A"; ctag "td"].

(** The rows of a nested table: one cell, then an empty row. *)
Definition nested_rows : list (list cell) :=
  [[mkCell false [Text (py "B")]]; []].

(** *** More vocabulary: the boundaries of rows and cells, and the markup
    the handlers have a branch for *)

Definition is_row_close (e : event) : bool :=
  match e with
  | EndTag tag => is_tag "tr" tag
  | _ => false
  end.

Definition is_cell_close (e : event) : bool :=
  match e with
  | EndTag tag => is_tag "td" tag || is_tag "th" tag
  | _ => false
  end.

(** A handler call with its tag in lower case and its attributes gone. *)
Definition normalize_event (e : event) : event :=
  match e with
  | StartTag tag _ => StartTag (lower tag) []
  | EndTag tag => EndTag (lower tag)
  | Data d => Data d
  | StartEndTag tag _ => StartEndTag (lower tag) []
  end.

(** The handler calls some branch of a handler can act on. *)
Definition relevant (e : event) : bool :=
  match e with
  | StartTag tag _ =>
      is_tag "table" tag || is_tag "tr" tag || is_tag "td" tag
      || is_tag "th" tag || is_tag "br" tag
  | EndTag tag =>
      is_tag "table" tag || is_tag "tr" tag || is_tag "td" tag
      || is_tag "th" tag
  | Data _ => true
  | StartEndTag tag _ => is_tag "br" tag
  end.

(** Markup in which a table is the third table-open boundary, nested in
    the first. *)
Definition nested_before : list event :=
  [otag "table"; otag "tr"; otag "td"; otag "table"; ctag "table"].

(** A row whose close boundary is missing, then a row that has it. *)
Definition unclosed_then_closed : list event :=
  otag "tr" :: flat_map cell_events [mkCell false [Text (py "lost")]]
    ++ row_events [mkCell false [Text (py "kept")]].

(** ** [_write_rows]

    [_write_rows] writes the cells into the worksheet and sizes the
    columns.  The worksheet and [get_column_letter] are openpyxl's: the
    function is embedded over them, each call of the library a parameter
    that may raise. *)

(** A [dict[int, int]], in insertion order. *)
Definition dict := list (Z * Z).

(** [d.get(k, default)] *)
Fixpoint dict_get (d : dict) (k default : Z) : Z :=
  match d with
  | [] => default
  | (k', v) :: d' => if (k' =? k)%Z then v else dict_get d' k default
  end.

(** [d[k] = v]: a key that is there keeps its place. *)
Fixpoint dict_set (d : dict) (k v : Z) : dict :=
  match d with
  | [] => [(k, v)]
  | (k', v') :: d' =>
      if (k' =? k)%Z then (k', v) :: d' else (k', v') :: dict_set d' k v
  end.

(** [len(s)] *)
Definition len (s : str) : Z := Z.of_nat (length s).

(** [max(iterable)] on integers; the wording of the message is that of
    CPython up to 3.11. *)
Definition py_max (xs : list Z) : result Z :=
  match xs with
  | [] => raise (ValueError "max() arg is an empty sequence")
  | x :: xs' => ret (fold_left Z.max xs' x)
  end.

(** [text = "" if value is None else str(value)] *)
Definition value_text (value : option str) : str :=
  match value with
  | None => []
  | Some v => v
  end.

(** [max(len(segment) for segment in text.splitlines()) if text else 0] *)
Definition text_width (text : str) : result Z :=
  match text with
  | [] => ret 0%Z
  | _ :: _ => py_max (map len (splitlines text))
  end.

(** [min(max(width + 2, 10), 60)] *)
Definition adjusted (width : Z) : Z := Z.min (Z.max (width + 2) 10) 60.

(** *** What the widths are measured against *)

(** The length of the longest line of a text. *)
Definition longest_line (text : str) : Z :=
  fold_right Z.max 0%Z (map len (splitlines text)).

(** The longest line of the cell at position [i] (from 0) of a row, 0
    where the row has no such cell. *)
Definition cell_longest (row : list (option str)) (i : nat) : Z :=
  match nth_error row i with
  | Some value => longest_line (value_text value)
  | None => 0%Z
  end.

(** The longest line among the cells of column [c] (from 1). *)
Definition column_longest (rows : list (list (option str))) (c : Z) : Z :=
  fold_right Z.max 0%Z
    (map (fun row => cell_longest row (Z.to_nat (c - 1))) rows).

(** The number of cells of the longest row. *)
Definition longest_row (rows : list (list (option str))) : nat :=
  fold_right Nat.max 0%nat (map (@length (option str)) rows).

(** The columns 1, ..., n. *)
Definition columns (n : nat) : list Z := map Z.of_nat (seq 1 n).

(** The longest line of each column, for the columns 1 to the length of
    the longest row. *)
Definition column_sizes (rows : list (list (option str))) : dict :=
  map (fun c => (c, column_longest rows c)) (columns (longest_row rows)).

(** The dictionary after the cells of a row, from column [col_idx] on, and
    after all the rows. *)
Fixpoint dict_after_row (col_idx : Z) (row : list (option str))
  (column_widths : dict) : dict :=
  match row with
  | [] => column_widths
  | value :: row' =>
      dict_after_row (col_idx + 1) row'
        (dict_set column_widths col_idx
           (Z.max (dict_get column_widths col_idx 0)
              (longest_line (value_text value))))
  end.

Fixpoint dict_after_rows (rows : list (list (option str)))
  (column_widths : dict) : dict :=
  match rows with
  | [] => column_widths
  | row :: rows' => dict_after_rows rows' (dict_after_row 1 row column_widths)
  end.

Section WriteRows.

(** The worksheet, and what the function asks of openpyxl:
    [worksheet.cell(row=, column=, value=)], [get_column_letter(col_idx)],
    [worksheet.column_dimensions[letter].width = width] and
    [worksheet.freeze_panes = ref]. *)
Variable Worksheet : Type.
Variable cell_write : Worksheet -> Z -> Z -> str -> result Worksheet.
Variable get_column_letter : Z -> result str.
Variable set_column_width : Worksheet -> str -> Z -> result Worksheet.
Variable set_freeze_panes : Worksheet -> string -> result Worksheet.

(** The inner loop of [_write_rows], from column [col_idx] on. *)
Fixpoint write_row (worksheet : Worksheet) (row_idx col_idx : Z)
  (row : list (option str)) (column_widths : dict)
  : result (Worksheet * dict) :=
  match row with
  | [] => ret (worksheet, column_widths)
  | value :: row' =>
      let text := value_text value in
      worksheet <- cell_write worksheet row_idx col_idx text ;;
      width <- text_width text ;;
      write_row worksheet row_idx (col_idx + 1) row'
        (dict_set column_widths col_idx
           (Z.max (dict_get column_widths col_idx 0) width))
  end.

(** The outer loop, from row [row_idx] on. *)
Fixpoint write_all_rows (worksheet : Worksheet) (row_idx : Z)
  (rows : list (list (option str))) (column_widths : dict)
  : result (Worksheet * dict) :=
  match rows with
  | [] => ret (worksheet, column_widths)
  | row :: rows' =>
      st <- write_row worksheet row_idx 1 row column_widths ;;
      write_all_rows (fst st) (row_idx + 1) rows' (snd st)
  end.

(** The second loop, over [column_widths.items()]. *)
Fixpoint size_columns (worksheet : Worksheet) (items : dict)
  : result Worksheet :=
  match items with
  | [] => ret worksheet
  | (col_idx, width) :: items' =>
      letter <- get_column_letter col_idx ;;
      worksheet <- set_column_width worksheet letter (adjusted width) ;;
      size_columns worksheet items'
  end.

(** [_write_rows] *)
Definition write_rows (worksheet : Worksheet)
  (rows : list (list (option str))) : result Worksheet :=
  st <- write_all_rows worksheet 1 rows [] ;;
  worksheet <- size_columns (fst st) (snd st) ;;
  set_freeze_panes worksheet "A2".

(** *** What [_write_rows] comes to

    The cells written one after the other, row by row, rows and columns
    counted from 1, an absent value as the empty text. *)
Fixpoint write_cells_of_row (worksheet : Worksheet) (row_idx col_idx : Z)
  (row : list (option str)) : result Worksheet :=
  match row with
  | [] => ret worksheet
  | value :: row' =>
      worksheet <- cell_write worksheet row_idx col_idx (value_text value) ;;
      write_cells_of_row worksheet row_idx (col_idx + 1) row'
  end.

Fixpoint write_cells (worksheet : Worksheet) (row_idx : Z)
  (rows : list (list (option str))) : result Worksheet :=
  match rows with
  | [] => ret worksheet
  | row :: rows' =>
      worksheet <- write_cells_of_row worksheet row_idx 1 row ;;
      write_cells worksheet (row_idx + 1) rows'
  end.

(** Then the columns sized, each by the longest line of its cells, then
    the panes frozen. *)
Definition write_rows_plan (worksheet : Worksheet)
  (rows : list (list (option str))) : result Worksheet :=
  worksheet <- write_cells worksheet 1 rows ;;
  worksheet <- size_columns worksheet (column_sizes rows) ;;
  set_freeze_panes worksheet "A2".

End WriteRows.

(** Three rows of uneven length, with a missing value and a cell of two
    lines. *)
Definition sample_sheet : list (list (option str)) :=
  [[Some (py "No"); Some (py "Destination")];
   [Some (py "AB1"); None; Some (py "Gate 3" ++ LF :: py "Terminal 2, far end")];
   [Some (py "A flight number that does not fit in a column of sixty characters")]].

(** *** States that differ in how the text of the open cell is cut *)

Definition same_text (s s' : TableParser) : Prop :=
  target_index s = target_index s' /\ current_index s = current_index s'
  /\ capture s = capture s' /\ table_depth s = table_depth s'
  /\ in_row s = in_row s' /\ in_cell s = in_cell s'
  /\ rows s = rows s' /\ current_row s = current_row s'
  /\ concat (cell_parts s) = concat (cell_parts s').

(** A header cell turned into a data cell. *)
Definition as_data_cell (e : event) : event :=
  match e with
  | StartTag tag a => if is_tag "th" tag then StartTag (py "td") a else e
  | EndTag tag => if is_tag "th" tag then EndTag (py "td") else e
  | _ => e
  end.

(** ** Python strings: facts *)

Section StrFacts.

Lemma eqb_eq : forall a b, PyStr.eqb a b = true <-> a = b.
Proof.
  induction a as [|x a IH]; destruct b as [|y b]; simpl; split;
    try congruence; intros H.
  - apply andb_true_iff in H as [Hx Hab].
    apply N.eqb_eq in Hx. apply IH in Hab. congruence.
  - injection H as -> ->. rewrite N.eqb_refl. now apply IH.
Qed.

Lemma islinebreak_isspace : forall c, islinebreak c = true -> isspace c = true.
Proof.
  intros c. unfold islinebreak, isspace.
  rewrite !orb_true_iff, !andb_true_iff, !N.leb_le, !N.eqb_eq.
  intros H.
  destruct (N.eqb_spec c 133); [now auto 20|].
  destruct (N.eqb_spec c 8232); [now auto 20|].
  destruct (N.eqb_spec c 8233); [now auto 20|].
  assert ((9 <= c /\ c <= 13) \/ (28 <= c /\ c <= 32))%N by lia.
  tauto.
Qed.

Lemma isspace_LF : isspace LF = true.
Proof. reflexivity. Qed.

Lemma isspace_SP : isspace SP = true.
Proof. reflexivity. Qed.

Lemma lstrip_spaces : forall s, Forall (fun c => isspace c = true) s -> lstrip s = [].
Proof.
  induction 1 as [|c s Hc _ IH]; simpl; [reflexivity|]. now rewrite Hc.
Qed.

Lemma rstrip_spaces : forall s, Forall (fun c => isspace c = true) s -> rstrip s = [].
Proof.
  induction 1 as [|c s Hc _ IH]; simpl; [reflexivity|]. now rewrite IH, Hc.
Qed.

Lemma strip_spaces : forall s, Forall (fun c => isspace c = true) s -> strip s = [].
Proof.
  intros s H. unfold strip. rewrite (lstrip_spaces _ H). reflexivity.
Qed.

Lemma starts_space_lstrip : forall s, starts_space (lstrip s) = false.
Proof.
  induction s as [|c s IH]; simpl; [reflexivity|].
  destruct (isspace c) eqn:Hc; [exact IH|]. simpl. exact Hc.
Qed.

Lemma rstrip_cons : forall c r,
  rstrip (c :: r) = match rstrip r with
                    | [] => if isspace c then [] else [c]
                    | _ :: _ => c :: rstrip r
                    end.
Proof. intros c r. simpl. destruct (rstrip r); reflexivity. Qed.

Lemma rstrip_nonspace : forall c r, isspace c = false -> rstrip (c :: r) = c :: rstrip r.
Proof.
  intros c r Hc. rewrite rstrip_cons, Hc. destruct (rstrip r); reflexivity.
Qed.

Lemma ends_space_rstrip : forall s, ends_space (rstrip s) = false.
Proof.
  induction s as [|c s IH]; [reflexivity|].
  rewrite rstrip_cons. destruct (rstrip s) as [|d r'] eqn:Hr.
  - destruct (isspace c) eqn:Hc; simpl; [reflexivity|exact Hc].
  - exact IH.
Qed.

Lemma starts_space_rstrip : forall s, starts_space s = false -> starts_space (rstrip s) = false.
Proof.
  intros [|c s] H; [reflexivity|]. simpl in H.
  rewrite (rstrip_nonspace _ _ H). exact H.
Qed.

Lemma strip_trimmed : forall s, trimmed (strip s).
Proof.
  intros s. split; unfold strip.
  - apply starts_space_rstrip, starts_space_lstrip.
  - apply ends_space_rstrip.
Qed.

Lemma lstrip_id : forall s, starts_space s = false -> lstrip s = s.
Proof. intros [|c s] H; simpl in *; [reflexivity|]. now rewrite H. Qed.

Lemma rstrip_id : forall s, ends_space s = false -> rstrip s = s.
Proof.
  induction s as [|c s IH]; intros H; [reflexivity|].
  rewrite rstrip_cons. destruct s as [|d s'].
  - simpl in *. now rewrite H.
  - rewrite (IH H). reflexivity.
Qed.

Lemma strip_id : forall s, trimmed s -> strip s = s.
Proof.
  intros s [H1 H2]. unfold strip. rewrite (lstrip_id _ H1). now apply rstrip_id.
Qed.

Lemma strip_idempotent : forall s, strip (strip s) = strip s.
Proof. intros s. apply strip_id, strip_trimmed. Qed.


Lemma Forall_lstrip : forall (P : char -> Prop) s, Forall P s -> Forall P (lstrip s).
Proof.
  intros P s H. induction H as [|c s Hc Hs IH]; simpl; [constructor|].
  destruct (isspace c); [exact IH|now constructor].
Qed.

Lemma Forall_rstrip : forall (P : char -> Prop) s, Forall P s -> Forall P (rstrip s).
Proof.
  intros P s H. induction H as [|c s Hc Hs IH]; [constructor|].
  rewrite rstrip_cons. destruct (rstrip s).
  - destruct (isspace c); auto.
  - now constructor.
Qed.

Lemma Forall_strip : forall (P : char -> Prop) s, Forall P s -> Forall P (strip s).
Proof. intros P s H. now apply Forall_rstrip, Forall_lstrip. Qed.

(** *** [split] *)

Lemma split_spaces : forall s, Forall (fun c => isspace c = true) s -> split s = [].
Proof.
  induction 1 as [|c s Hc _ IH]; simpl; [reflexivity|]. now rewrite Hc.
Qed.

Lemma split_lstrip : forall s, split (lstrip s) = split s.
Proof.
  induction s as [|c s IH]; simpl; [reflexivity|].
  destruct (isspace c) eqn:Hc; [exact IH|]. simpl. now rewrite Hc.
Qed.

Lemma split_word_starts : forall c r, isspace c = false -> split (c :: r) <> [].
Proof.
  intros c r Hc. simpl. rewrite Hc.
  destruct (word_ends r); [discriminate|]. destruct (split r); discriminate.
Qed.

Lemma split_words_nonempty : forall s, Forall (fun w => w <> []) (split s).
Proof.
  induction s as [|c s IH]; simpl; [constructor|].
  destruct (isspace c); [exact IH|].
  destruct (word_ends s).
  - constructor; [discriminate|exact IH].
  - destruct (split s) as [|w ws].
    + constructor; [discriminate|constructor].
    + inversion IH; subst. constructor; [discriminate|assumption].
Qed.

Lemma join_cons_nonempty : forall sep w ws, w <> [] -> join sep (w :: ws) <> [].
Proof.
  intros sep [|c w] ws Hw; [congruence|]. simpl. destruct ws; discriminate.
Qed.

Lemma join_cons2 : forall sep p q ps,
  join sep (p :: q :: ps) = p ++ sep ++ join sep (q :: ps).
Proof. reflexivity. Qed.

(** *** [collapse_ws] against [" ".join(s.split())] *)

Lemma lstrip_collapse_ws : forall s, lstrip (collapse_ws s) = collapse_ws (lstrip s).
Proof.
  induction s as [|c s IH]; simpl; [reflexivity|].
  destruct (isspace c) eqn:Hc.
  - destruct (starts_space s); simpl; [exact IH|]. exact IH.
  - simpl. now rewrite Hc.
Qed.

Lemma rstrip_collapse_ws : forall s,
  rstrip (collapse_ws s) =
  match split s with
  | [] => []
  | ws => (if starts_space s then [SP] else []) ++ join [SP] ws
  end.
Proof.
  induction s as [|c s IH]; [reflexivity|].
  cbn [collapse_ws split starts_space].
  destruct (isspace c) eqn:Hc.
  - destruct (starts_space s) eqn:Hs.
    + rewrite IH. reflexivity.
    + rewrite rstrip_cons, IH, isspace_SP.
      pose proof (split_words_nonempty s) as Hne.
      destruct (split s) as [|w ws]; [reflexivity|].
      inversion Hne as [|? ? Hw _]; subst.
      pose proof (join_cons_nonempty [SP] w ws Hw) as Hj.
      remember (join [SP] (w :: ws)) as j eqn:Ej.
      destruct j; [now symmetry in Ej|reflexivity].
  - rewrite (rstrip_nonspace _ _ Hc), IH.
    destruct (word_ends s) eqn:Hw.
    + destruct s as [|d s']; [reflexivity|].
      simpl in Hw. cbn [starts_space]. rewrite Hw.
      destruct (split (d :: s')) as [|w ws]; reflexivity.
    + destruct s as [|d s']; [discriminate|].
      simpl in Hw. cbn [starts_space]. rewrite Hw.
      pose proof (split_word_starts d s' Hw) as Hne.
      destruct (split (d :: s')) as [|w ws]; [congruence|].
      destruct ws; reflexivity.
Qed.

Lemma strip_collapse_ws : forall s, strip (collapse_ws s) = join [SP] (split s).
Proof.
  intros s. unfold strip.
  rewrite lstrip_collapse_ws, rstrip_collapse_ws, starts_space_lstrip, split_lstrip.
  destruct (split s); reflexivity.
Qed.

Lemma strip_join_split : forall s, strip (join [SP] (split s)) = join [SP] (split s).
Proof.
  intros s. rewrite <- strip_collapse_ws. apply strip_idempotent.
Qed.


(** *** [splitlines] *)

(** [splitlines] steps over one character, or over two at a "\r\n". *)
Lemma str_ind2 : forall Q : list N -> Prop,
  Q [] ->
  (forall c r, Q r -> Q (tl r) -> Q (c :: r)) ->
  forall s, Q s.
Proof.
  intros Q Hnil Hcons s.
  assert (H : Q s /\ Q (tl s)); [|exact (proj1 H)].
  induction s as [|c r [IH1 IH2]]; simpl; auto.
Qed.

Lemma splitlines_Forall : forall (P : char -> Prop) s,
  Forall P s -> Forall (Forall P) (splitlines s).
Proof.
  intros P s. induction s as [|c r IH1 IH2] using str_ind2; intros H.
  - constructor.
  - inversion H as [|? ? Hc Hr]; subst. cbn [splitlines].
    destruct (islinebreak c).
    + constructor; [constructor|].
      destruct r as [|c' r']; [constructor|].
      destruct (N.eqb c CR && N.eqb c' LF).
      * apply IH2. now inversion Hr.
      * now apply IH1.
    + specialize (IH1 Hr). destruct (splitlines r) as [|l ls].
      * repeat constructor. exact Hc.
      * inversion IH1; subst. constructor; [now constructor|assumption].
Qed.

Lemma splitlines_no_LF : forall s, Forall (Forall (fun c => c <> LF)) (splitlines s).
Proof.
  intros s. induction s as [|c r IH1 IH2] using str_ind2.
  - constructor.
  - cbn [splitlines]. destruct (islinebreak c) eqn:Hc.
    + constructor; [constructor|].
      destruct r as [|c' r']; [constructor|].
      destruct (N.eqb c CR && N.eqb c' LF); [exact IH2|exact IH1].
    + assert (Hne : c <> LF) by (intros ->; discriminate).
      destruct (splitlines r) as [|l ls].
      * repeat constructor. exact Hne.
      * inversion IH1; subst. constructor; [now constructor|assumption].
Qed.

Lemma contains_app : forall c a b, contains c (a ++ b) = contains c a || contains c b.
Proof. intros c a b. apply existsb_app. Qed.

Lemma contains_absent : forall c s, Forall (fun x => x <> c) s -> contains c s = false.
Proof.
  intros c s H. induction H as [|x s Hx _ IH]; [reflexivity|].
  simpl. rewrite IH, orb_false_r. apply N.eqb_neq. congruence.
Qed.

Lemma contains_join_LF : forall ls,
  Forall (Forall (fun c => c <> LF)) ls ->
  contains LF (join [LF] ls) = (1 <? length ls)%nat.
Proof.
  intros ls H. induction H as [|l ls Hl Hls IH]; [reflexivity|].
  destruct ls as [|l' ls'].
  - simpl. now apply contains_absent.
  - rewrite join_cons2, !contains_app. simpl.
    now rewrite orb_true_r.
Qed.

Lemma stripped_lines_no_LF : forall s,
  Forall (Forall (fun c => c <> LF)) (map strip (splitlines s)).
Proof.
  intros s. apply Forall_map.
  eapply Forall_impl; [|apply splitlines_no_LF].
  intros l Hl. now apply Forall_strip.
Qed.

Lemma replace_spaces : forall s,
  Forall (fun c => isspace c = true) s ->
  Forall (fun c => isspace c = true) (replace_char NBSP SP s).
Proof.
  intros s H. unfold replace_char. apply Forall_map.
  eapply Forall_impl; [|exact H]. intros c Hc. simpl.
  destruct (N.eqb c NBSP); [reflexivity|exact Hc].
Qed.

Lemma join_LF_spaces : forall ls,
  Forall (Forall (fun c => isspace c = true)) ls ->
  Forall (fun c => isspace c = true) (join [LF] ls).
Proof.
  intros ls H. induction H as [|l ls Hl Hls IH]; [constructor|].
  destruct ls as [|l' ls']; [exact Hl|].
  rewrite join_cons2. apply Forall_app. split; [exact Hl|].
  apply Forall_app. split; [|exact IH]. repeat constructor.
Qed.

End StrFacts.

(** ** The text of a cell *)

Section CellText.

Lemma cell_text_trimmed : forall parts, trimmed (cell_text parts).
Proof. intros parts. unfold cell_text. apply strip_trimmed. Qed.

Lemma cell_text_strip_spec : forall parts, cell_text parts = strip (cell_text_spec parts).
Proof.
  intros parts. unfold cell_text, cell_text_spec. cbv zeta.
  set (text := replace_char NBSP SP (concat parts)).
  rewrite (contains_join_LF _ (stripped_lines_no_LF text)).
  destruct (Nat.ltb 1 _); simpl.
  - reflexivity.
  - now rewrite strip_join_split, strip_collapse_ws.
Qed.


Lemma splitlines_line_then : forall r1 r2,
  Forall (fun c => islinebreak c = false) r1 ->
  splitlines (r1 ++ LF :: r2) = r1 :: splitlines r2.
Proof.
  intros r1 r2 H. induction H as [|c r Hc _ IH].
  - simpl. destruct r2; reflexivity.
  - cbn [app splitlines]. now rewrite Hc, IH.
Qed.

Lemma splitlines_one_line : forall r,
  r <> [] -> Forall (fun c => islinebreak c = false) r -> splitlines r = [r].
Proof.
  intros r Hne H. induction H as [|c r Hc Hr IH]; [congruence|].
  cbn [splitlines]. rewrite Hc. destruct r as [|d r']; [reflexivity|].
  rewrite IH; [reflexivity|discriminate].
Qed.

Lemma replace_no_break : forall s,
  Forall (fun c => islinebreak c = false) s ->
  Forall (fun c => islinebreak c = false) (replace_char NBSP SP s).
Proof.
  intros s H. unfold replace_char. apply Forall_map.
  eapply Forall_impl; [|exact H]. intros c Hc. simpl.
  destruct (N.eqb c NBSP); [reflexivity|exact Hc].
Qed.

Lemma replace_char_line_then : forall l1 l2,
  replace_char NBSP SP (l1 ++ LF :: l2) =
  replace_char NBSP SP l1 ++ LF :: replace_char NBSP SP l2.
Proof. intros l1 l2. unfold replace_char. now rewrite map_app. Qed.

Lemma starts_space_app : forall a b, a <> [] -> starts_space (a ++ b) = starts_space a.
Proof. intros [|c a] b H; [congruence|reflexivity]. Qed.

Lemma ends_space_app : forall a b, b <> [] -> ends_space (a ++ b) = ends_space b.
Proof.
  induction a as [|c a IH]; intros b H; [reflexivity|].
  cbn [app ends_space]. destruct (a ++ b) eqn:E.
  - destruct a; [simpl in E; congruence|discriminate].
  - rewrite <- E. now apply IH.
Qed.

Lemma two_lines_trimmed : forall a b,
  trimmed a -> trimmed b -> a <> [] -> b <> [] -> trimmed (a ++ LF :: b).
Proof.
  intros a b [Ha _] [_ Hb] Hna Hnb. split.
  - now rewrite starts_space_app.
  - rewrite ends_space_app by discriminate.
    destruct b; [congruence|exact Hb].
Qed.

(** A cell of two lines with something on each: the trimmed lines, with
    the line separator between them. *)
Lemma cell_text_two_lines : forall parts l1 l2,
  concat parts = l1 ++ LF :: l2 ->
  Forall (fun c => islinebreak c = false) l1 ->
  Forall (fun c => islinebreak c = false) l2 ->
  strip (replace_char NBSP SP l1) <> [] ->
  strip (replace_char NBSP SP l2) <> [] ->
  cell_text parts =
    strip (replace_char NBSP SP l1) ++ LF :: strip (replace_char NBSP SP l2).
Proof.
  intros parts l1 l2 E H1 H2 N1 N2. unfold cell_text. cbv zeta.
  rewrite E, replace_char_line_then.
  set (r1 := replace_char NBSP SP l1) in *.
  set (r2 := replace_char NBSP SP l2) in *.
  assert (Hr2 : r2 <> []) by (intros Hr; rewrite Hr in N2; now apply N2).
  rewrite splitlines_line_then by now apply replace_no_break.
  rewrite splitlines_one_line by (auto; now apply replace_no_break).
  cbn [map join]. rewrite contains_app. cbn [app contains existsb negb].
  rewrite N.eqb_refl, orb_true_r. cbn [negb orb].
  apply strip_id. apply two_lines_trimmed; auto using strip_trimmed.
Qed.

End CellText.

(** ** The handlers *)

(** Settles the comparisons of closed tag names. *)
Ltac eval_tags :=
  unfold is_tag in *;
  repeat match goal with
    | |- context [PyStr.eqb (lower (py ?a)) (py ?b)] =>
        let v := eval vm_compute in (PyStr.eqb (lower (py a)) (py b)) in
        change (PyStr.eqb (lower (py a)) (py b)) with v
    end.

(** Follows a handler through its branches. *)
Ltac branches :=
  repeat match goal with
    | |- context [if ?b then _ else _] => destruct b eqn:?
    | |- context [match ?l with [] => _ | _ :: _ => _ end] => destruct l eqn:?
    end.

(** Reads the attributes of a state that is written out. *)
Ltac fields :=
  cbn [target_index current_index capture table_depth in_row in_cell rows
       current_row cell_parts with_current_index with_capture
       with_table_depth with_in_row with_in_cell with_rows with_current_row
       with_cell_parts reindex fresh] in *.

Section Handlers.

Lemma init_fresh : forall target, (0 <= target)%Z -> init target = inr (fresh target).
Proof.
  intros target H. unfold init.
  destruct (Z.ltb_spec target 0); [lia|reflexivity].
Qed.

Lemma init_negative : forall target, (target < 0)%Z ->
  init target = inl (ValueError "table index must be >= 0").
Proof.
  intros target H. unfold init.
  destruct (Z.ltb_spec target 0); [reflexivity|lia].
Qed.

Lemma feed_app : forall s evs1 evs2, feed s (evs1 ++ evs2) = feed (feed s evs1) evs2.
Proof. intros s evs1 evs2. apply fold_left_app. Qed.

Lemma feed_cons : forall s e evs, feed s (e :: evs) = feed (handle s e) evs.
Proof. reflexivity. Qed.

(** Outside a captured table only a table-open boundary is noticed. *)
Lemma handle_idle : forall s e,
  capture s = false -> is_table_open e = false -> handle s e = s.
Proof.
  intros s [tag a|tag|d|tag a] Hc He; simpl in *.
  - unfold handle_starttag, starttag_in_table. now rewrite He, Hc.
  - unfold handle_endtag. now rewrite Hc, andb_false_r.
  - unfold handle_data. now rewrite Hc.
  - unfold handle_startendtag. now rewrite Hc, andb_false_r.
Qed.

Lemma handle_idle_open : forall s e,
  capture s = false -> is_table_open e = true ->
  handle s e =
    if (current_index s + 1 =? target_index s)%Z
    then mkParser (target_index s) (current_index s + 1) true 1 (in_row s)
           (in_cell s) (rows s) (current_row s) (cell_parts s)
    else with_current_index (current_index s + 1) s.
Proof.
  intros s [tag a|tag|d|tag a] Hc He; simpl in *; try discriminate.
  unfold handle_starttag, starttag_in_table. rewrite He. simpl.
  rewrite Hc. destruct (_ =? _)%Z; reflexivity.
Qed.

(** Inside a captured table a further table-open boundary is a level
    more, as long as its index is not the target's. *)
Lemma handle_nested_open : forall s e,
  capture s = true -> is_table_open e = true ->
  (target_index s <= current_index s)%Z ->
  handle s e = mkParser (target_index s) (current_index s + 1) true
                 (table_depth s + 1) (in_row s) (in_cell s) (rows s)
                 (current_row s) (cell_parts s).
Proof.
  intros s [tag a|tag|d|tag a] Hc He Hi; simpl in *; try discriminate.
  unfold handle_starttag. rewrite He. simpl.
  destruct (Z.eqb_spec (current_index s + 1) (target_index s)); [lia|].
  rewrite Hc. unfold with_table_depth, with_current_index. simpl.
  now rewrite Hc.
Qed.

Lemma handle_close : forall s e,
  capture s = true -> is_table_close e = true ->
  handle s e = mkParser (target_index s) (current_index s)
                 (negb (table_depth s - 1 =? 0)%Z) (table_depth s - 1)
                 (in_row s) (in_cell s) (rows s) (current_row s)
                 (cell_parts s).
Proof.
  intros s [tag a|tag|d|tag a] Hc He; simpl in *; try discriminate.
  unfold handle_endtag. unfold is_tag in He. rewrite He, Hc. simpl.
  unfold with_capture, with_table_depth. simpl.
  destruct (_ =? _)%Z; simpl; now rewrite ?Hc.
Qed.

(** No handler but the table-open one looks at the table indices. *)
Lemma handle_reindex : forall t c s e,
  is_table_open e = false ->
  handle (reindex t c s) e = reindex t c (handle s e).
Proof.
  intros t c s [tag a|tag|d|tag a] He; simpl in *.
  - unfold handle_starttag, starttag_in_table. rewrite He. simpl.
    branches; reflexivity.
  - unfold handle_endtag. simpl. branches; reflexivity.
  - unfold handle_data. simpl. branches; reflexivity.
  - unfold handle_startendtag. simpl. branches; reflexivity.
Qed.

Lemma feed_reindex : forall t c evs s,
  forallb (fun e => negb (is_table_open e)) evs = true ->
  feed (reindex t c s) evs = reindex t c (feed s evs).
Proof.
  intros t c evs. induction evs as [|e evs IH]; intros s H; [reflexivity|].
  simpl in H. apply andb_true_iff in H as [He Hevs].
  apply negb_true_iff in He.
  rewrite !feed_cons, handle_reindex by exact He. now apply IH.
Qed.

(** Between the boundaries of a table the capture goes on at its level. *)
Lemma handle_table_free : forall s e,
  is_table_open e = false -> is_table_close e = false ->
  capture (handle s e) = capture s /\ table_depth (handle s e) = table_depth s
  /\ target_index (handle s e) = target_index s
  /\ current_index (handle s e) = current_index s.
Proof.
  intros s [tag a|tag|d|tag a] Ho Hc; simpl in *.
  - unfold handle_starttag, starttag_in_table. rewrite Ho.
    branches; simpl; auto.
  - unfold handle_endtag. unfold is_tag in Hc. rewrite Hc. simpl.
    branches; simpl; auto.
  - unfold handle_data. branches; simpl; auto.
  - unfold handle_startendtag. branches; simpl; auto.
Qed.

Lemma feed_table_free : forall evs s,
  table_free evs = true ->
  capture (feed s evs) = capture s /\ table_depth (feed s evs) = table_depth s
  /\ target_index (feed s evs) = target_index s
  /\ current_index (feed s evs) = current_index s.
Proof.
  induction evs as [|e evs IH]; intros s H; [simpl; auto|].
  simpl in H. apply andb_true_iff in H as [He Hevs].
  apply negb_true_iff, orb_false_iff in He as [Ho Hc].
  rewrite feed_cons.
  destruct (IH (handle s e) Hevs) as (H1 & H2 & H3 & H4).
  destruct (handle_table_free s e Ho Hc) as (G1 & G2 & G3 & G4).
  repeat split; congruence.
Qed.


(** *** Before and after the target table *)

Lemma count_table_opens_cons : forall e evs,
  count_table_opens (e :: evs) =
  ((if is_table_open e then 1 else 0) + count_table_opens evs)%Z.
Proof.
  intros e evs. unfold count_table_opens. simpl.
  destruct (is_table_open e); simpl length; lia.
Qed.

Lemma count_table_opens_app : forall evs1 evs2,
  count_table_opens (evs1 ++ evs2) =
  (count_table_opens evs1 + count_table_opens evs2)%Z.
Proof.
  intros evs1 evs2. unfold count_table_opens.
  rewrite filter_app, length_app. lia.
Qed.

Lemma count_table_opens_nonneg : forall evs, (0 <= count_table_opens evs)%Z.
Proof. intros evs. unfold count_table_opens. lia. Qed.

Lemma count_table_opens_none : forall evs,
  forallb (fun e => negb (is_table_open e)) evs = true ->
  count_table_opens evs = 0%Z.
Proof.
  induction evs as [|e evs IH]; intros H; [reflexivity|].
  simpl in H. apply andb_true_iff in H as [He Hevs].
  apply negb_true_iff in He.
  rewrite count_table_opens_cons, He, IH by exact Hevs. reflexivity.
Qed.

Lemma with_current_index_same : forall s v,
  v = current_index s -> with_current_index v s = s.
Proof. intros [] v ->. reflexivity. Qed.

(** The tables before the target are counted and nothing else. *)
Lemma feed_before_target : forall evs s,
  capture s = false ->
  (current_index s + count_table_opens evs < target_index s)%Z ->
  feed s evs = with_current_index (current_index s + count_table_opens evs) s.
Proof.
  induction evs as [|e evs IH]; intros s Hc Hlt.
  - simpl. symmetry. apply with_current_index_same. simpl.
    unfold count_table_opens. simpl. lia.
  - rewrite count_table_opens_cons in *. rewrite feed_cons.
    pose proof (count_table_opens_nonneg evs) as Hn.
    destruct (is_table_open e) eqn:He.
    + rewrite (handle_idle_open s e Hc He).
      destruct (Z.eqb_spec (current_index s + 1) (target_index s)); [lia|].
      rewrite IH; fields; [|exact Hc|lia].
      unfold with_current_index. fields. f_equal. lia.
    + rewrite (handle_idle s e Hc He). rewrite IH; [|exact Hc|lia].
      f_equal; lia.
Qed.

(** Once the target table is closed the scanner is deaf. *)
Lemma feed_after_target : forall evs s,
  capture s = false -> (target_index s <= current_index s)%Z ->
  rows (feed s evs) = rows s /\ capture (feed s evs) = false.
Proof.
  induction evs as [|e evs IH]; intros s Hc Hle; [simpl; auto|].
  rewrite feed_cons. destruct (is_table_open e) eqn:He.
  - rewrite (handle_idle_open s e Hc He).
    destruct (Z.eqb_spec (current_index s + 1) (target_index s)); [lia|].
    destruct (IH (with_current_index (current_index s + 1) s)) as [H1 H2];
      simpl; auto; lia.
  - rewrite (handle_idle s e Hc He). now apply IH.
Qed.

Lemma table_free_no_open : forall evs,
  table_free evs = true ->
  forallb (fun e => negb (is_table_open e)) evs = true.
Proof.
  intros evs H. apply forallb_forall. intros e He.
  unfold table_free in H. rewrite forallb_forall in H. specialize (H e He).
  apply negb_true_iff, orb_false_iff in H as [H _]. now rewrite H.
Qed.

Lemma wf_sibling_parts : forall t,
  wf_sibling t = true ->
  forallb (fun e => negb (is_table_open e)) (before t) = true
  /\ is_table_open (sopen t) = true /\ table_free (body t) = true
  /\ is_table_close (sclose t) = true.
Proof.
  intros t H. unfold wf_sibling in H.
  repeat (apply andb_true_iff in H as [H ?]). auto.
Qed.

Lemma is_table_close_not_open : forall e,
  is_table_close e = true -> is_table_open e = false.
Proof. intros [] H; simpl in *; congruence. Qed.

Lemma count_sibling_events : forall t,
  wf_sibling t = true -> count_table_opens (sibling_events t) = 1%Z.
Proof.
  intros t H. apply wf_sibling_parts in H as (Hb & Ho & Hf & Hc).
  unfold sibling_events, table_events.
  rewrite count_table_opens_app, count_table_opens_cons, count_table_opens_app.
  rewrite (count_table_opens_none _ Hb), Ho.
  rewrite (count_table_opens_none _ (table_free_no_open _ Hf)).
  rewrite count_table_opens_cons, (is_table_close_not_open _ Hc).
  reflexivity.
Qed.

Lemma count_siblings : forall ts,
  forallb wf_sibling ts = true ->
  count_table_opens (flat_map sibling_events ts) = Z.of_nat (length ts).
Proof.
  induction ts as [|t ts IH]; intros H; [reflexivity|].
  simpl in H. apply andb_true_iff in H as [Ht Hts].
  cbn [flat_map length].
  rewrite count_table_opens_app, (count_sibling_events _ Ht), (IH Hts). lia.
Qed.

(** One table, closed: what the scanner holds afterwards. *)
Lemma feed_target_table : forall t i,
  is_table_open (sopen t) = true -> table_free (body t) = true ->
  is_table_close (sclose t) = true ->
  let s := feed (reindex i (i - 1) (fresh 0)) (table_events t) in
  rows s = table_rows t /\ capture s = false
  /\ target_index s = i /\ current_index s = i.
Proof.
  intros t i Ho Hf Hc. unfold table_rows, table_events. cbv zeta.
  rewrite !feed_cons.
  rewrite (handle_idle_open (fresh 0) _ eq_refl Ho).
  rewrite (handle_idle_open (reindex i (i - 1) (fresh 0)) _ eq_refl Ho).
  simpl target_index. simpl current_index.
  replace (i - 1 + 1 =? i)%Z with true by (symmetry; apply Z.eqb_eq; lia).
  change (-1 + 1 =? 0)%Z with true. cbv iota.
  replace (i - 1 + 1)%Z with i by lia. simpl.
  set (s0 := mkParser 0 0 true 1 false false [] [] []).
  change (mkParser i i true 1 false false [] [] []) with (reindex i i s0).
  rewrite feed_reindex.
  2:{ rewrite forallb_app, (table_free_no_open _ Hf). simpl.
      now rewrite (is_table_close_not_open _ Hc). }
  simpl. repeat split; try reflexivity.
  rewrite feed_app. simpl.
  destruct (feed_table_free (body t) s0 Hf) as (H1 & H2 & _).
  rewrite handle_close; [simpl|now rewrite H1|exact Hc].
  rewrite H2. reflexivity.
Qed.


(** *** Well-formed rows *)

Lemma handle_inline : forall i s,
  capture s = true -> in_cell s = true ->
  handle s (inline_event i) =
  with_cell_parts (cell_parts s ++ [inline_part i]) s.
Proof.
  intros [d| |] s Hc Hi; simpl.
  - unfold handle_data. now rewrite Hc, Hi.
  - unfold handle_starttag, starttag_in_table. eval_tags.
    now rewrite Hc, Hi.
  - unfold handle_startendtag. eval_tags. now rewrite Hc, Hi.
Qed.

Lemma feed_inlines : forall ins s,
  capture s = true -> in_cell s = true ->
  feed s (map inline_event ins) =
  with_cell_parts (cell_parts s ++ map inline_part ins) s.
Proof.
  induction ins as [|i ins IH]; intros s Hc Hi.
  - destruct s. unfold with_cell_parts. fields. now rewrite app_nil_r.
  - cbn [map]. rewrite feed_cons, handle_inline, IH by assumption.
    unfold with_cell_parts. fields. now rewrite <- app_assoc.
Qed.

Lemma feed_cell : forall c s,
  capture s = true ->
  feed s (cell_events c) =
  mkParser (target_index s) (current_index s) true (table_depth s)
    (in_row s) false (rows s) (current_row s ++ [cell_value c]) [].
Proof.
  intros c s Hc. unfold cell_events, cell_value, cell_tag.
  rewrite feed_cons, feed_app.
  destruct (header c); simpl handle;
    unfold handle_starttag, starttag_in_table; eval_tags; rewrite Hc;
    cbn [negb orb andb]; rewrite feed_inlines by (fields; auto);
    simpl feed; unfold handle_endtag; eval_tags; fields; rewrite Hc;
    cbn [negb orb andb]; unfold with_cell_parts; fields; rewrite Hc;
    reflexivity.
Qed.

Lemma feed_cells : forall cs s,
  capture s = true ->
  let s' := feed s (flat_map cell_events cs) in
  same_table s s' /\ in_row s' = in_row s /\ rows s' = rows s
  /\ current_row s' = current_row s ++ map cell_value cs.
Proof.
  induction cs as [|c cs IH]; intros s Hc; cbv zeta.
  - simpl. unfold same_table. now rewrite app_nil_r.
  - cbn [flat_map map]. rewrite feed_app, (feed_cell c s Hc).
    match goal with |- context [feed ?s1 (flat_map _ _)] =>
      destruct (IH s1 eq_refl) as ((H1 & H2 & H3 & H4) & H5 & H6 & H7)
    end.
    fields. unfold same_table. rewrite H1, H2, H3, H4, H5, H6, H7, Hc.
    now rewrite <- app_assoc.
Qed.

Lemma handle_row_open : forall s,
  capture s = true ->
  handle s (otag "tr") = with_current_row [] (with_in_row true s).
Proof.
  intros s Hc. simpl. unfold handle_starttag, starttag_in_table.
  eval_tags. now rewrite Hc.
Qed.

Lemma handle_row_close : forall s,
  capture s = true -> in_row s = true ->
  handle s (ctag "tr") =
  with_current_row []
    (with_in_row false
       match current_row s with
       | [] => s
       | _ :: _ => with_rows (rows s ++ [current_row s]) s
       end).
Proof.
  intros s Hc Hr. simpl. unfold handle_endtag. eval_tags.
  now rewrite Hc, Hr.
Qed.

Lemma feed_row : forall r s,
  capture s = true ->
  let s' := feed s (row_events r) in
  same_table s s'
  /\ rows s' = rows s ++ filter nonempty_row [map cell_value r].
Proof.
  intros r s Hc. cbv zeta. unfold row_events.
  rewrite feed_cons, feed_app, (handle_row_open s Hc).
  match goal with |- context [feed ?s1 (flat_map _ _)] =>
    destruct (feed_cells r s1 Hc) as ((H1 & H2 & H3 & H4) & H5 & H6 & H7);
    set (s2 := feed s1 (flat_map cell_events r)) in *
  end.
  fields. change (feed s2 [ctag "tr"]) with (handle s2 (ctag "tr")).
  rewrite handle_row_close by congruence.
  unfold same_table. rewrite H7. cbn [app].
  destruct (map cell_value r) as [|v vs]; fields; simpl filter;
    rewrite ?app_nil_r, H6; auto.
Qed.

Lemma feed_rows : forall rs s,
  capture s = true ->
  let s' := feed s (rows_events rs) in
  same_table s s' /\ rows s' = rows s ++ expected_rows rs.
Proof.
  induction rs as [|r rs IH]; intros s Hc; cbv zeta.
  - simpl. unfold same_table, expected_rows. simpl. now rewrite app_nil_r.
  - unfold rows_events. cbn [flat_map]. rewrite feed_app.
    destruct (feed_row r s Hc) as ((H1 & H2 & H3 & H4) & H5).
    fold (rows_events rs).
    destruct (IH (feed s (row_events r))) as ((G1 & G2 & G3 & G4) & G5);
      [congruence|].
    unfold same_table. rewrite G1, G2, G3, G4, G5, H1, H2, H3, H4, H5.
    repeat split. unfold expected_rows. cbn [map filter].
    rewrite <- app_assoc. f_equal.
    destruct (nonempty_row (map cell_value r)); reflexivity.
Qed.

(** The rows of a well-formed table are the rows it stands for. *)
Lemma table_rows_well_formed : forall t rs,
  is_table_open (sopen t) = true -> is_table_close (sclose t) = true ->
  body t = rows_events rs ->
  table_rows t = expected_rows rs.
Proof.
  intros t rs Ho Hc Hb. unfold table_rows, table_events.
  rewrite feed_cons, feed_app, Hb.
  rewrite (handle_idle_open (fresh 0) _ eq_refl Ho). simpl.
  match goal with |- context [feed ?s1 (rows_events rs)] =>
    destruct (feed_rows rs s1 eq_refl) as ((H1 & H2 & H3 & H4) & H5)
  end.
  rewrite handle_close; [|now rewrite H1|exact Hc].
  fields. now rewrite H5.
Qed.


(** *** What a handler call does to the rows *)

Lemma handle_rows : forall s e,
  rows (handle s e) = rows s
  \/ (current_row s <> [] /\ rows (handle s e) = rows s ++ [current_row s]).
Proof.
  intros s [tag a|tag|d|tag a]; simpl.
  - unfold handle_starttag, starttag_in_table. branches; fields; auto.
  - unfold handle_endtag. branches; fields; auto.
    right. split; [congruence|reflexivity].
  - unfold handle_data. branches; fields; auto.
  - unfold handle_startendtag. branches; fields; auto.
Qed.

Lemma handle_current_row : forall s e,
  current_row (handle s e) = current_row s
  \/ current_row (handle s e) = []
  \/ current_row (handle s e) = current_row s ++ [cell_text (cell_parts s)].
Proof.
  intros s [tag a|tag|d|tag a]; simpl.
  - unfold handle_starttag, starttag_in_table. branches; fields; auto.
  - unfold handle_endtag. branches; fields; auto.
  - unfold handle_data. branches; fields; auto.
  - unfold handle_startendtag. branches; fields; auto.
Qed.

Lemma handle_rows_nonempty : forall s e,
  Forall (fun r => r <> []) (rows s) ->
  Forall (fun r => r <> []) (rows (handle s e)).
Proof.
  intros s e H. destruct (handle_rows s e) as [-> | [Hne ->]]; [exact H|].
  apply Forall_app. split; [exact H|]. now repeat constructor.
Qed.

Lemma handle_rows_kept : forall s e,
  current_row s = [] -> rows (handle s e) = rows s.
Proof.
  intros s e H. destruct (handle_rows s e) as [E | [Hne _]]; [exact E|].
  congruence.
Qed.

Lemma handle_cells_trimmed : forall s e,
  Forall (Forall trimmed) (rows s) -> Forall trimmed (current_row s) ->
  Forall (Forall trimmed) (rows (handle s e))
  /\ Forall trimmed (current_row (handle s e)).
Proof.
  intros s e Hr Hc. split.
  - destruct (handle_rows s e) as [-> | [_ ->]]; [exact Hr|].
    apply Forall_app. split; [exact Hr|]. now repeat constructor.
  - destruct (handle_current_row s e) as [-> | [-> | ->]];
      [exact Hc|constructor|].
    apply Forall_app. split; [exact Hc|].
    repeat constructor; apply cell_text_trimmed.
Qed.

(** *** What a handler call does to the table counters *)

Lemma handle_counters : forall s e,
  (0 <= target_index s)%Z ->
  (capture s = true ->
   (target_index s <= current_index s)%Z /\ (1 <= table_depth s)%Z) ->
  (capture s = false -> table_depth s = 0%Z) ->
  let s' := handle s e in
  (0 <= target_index s')%Z
  /\ (capture s' = true ->
      (target_index s' <= current_index s')%Z /\ (1 <= table_depth s')%Z)
  /\ (capture s' = false -> table_depth s' = 0%Z).
Proof.
  intros s e Ht Hcap Hidle. cbv zeta.
  destruct (is_table_open e) eqn:Ho; [|destruct (is_table_close e) eqn:Hc].
  - destruct (capture s) eqn:Hs.
    + destruct Hcap as [H1 H2]; [reflexivity|].
      rewrite (handle_nested_open s e Hs Ho H1). fields.
      repeat split; intros; try lia; try discriminate.
    + rewrite (handle_idle_open s e Hs Ho).
      destruct (Z.eqb_spec (current_index s + 1) (target_index s)); fields.
      * repeat split; intros; try lia; try discriminate.
      * rewrite Hs. repeat split; intros; try discriminate; auto.
  - destruct (capture s) eqn:Hs.
    + destruct Hcap as [H1 H2]; [reflexivity|].
      rewrite (handle_close s e Hs Hc). fields.
      destruct (Z.eqb_spec (table_depth s - 1) 0); simpl;
        repeat split; intros; try lia; try discriminate; auto.
    + rewrite (handle_idle s e Hs Ho). rewrite Hs.
      repeat split; intros; try discriminate; auto.
  - destruct (handle_table_free s e Ho Hc) as (H1 & H2 & H3 & H4).
    rewrite H1, H2, H3, H4. auto.
Qed.

Lemma fresh_consistent : forall target, (0 <= target)%Z -> consistent (fresh target).
Proof.
  intros target H. constructor; fields; auto; try discriminate.
Qed.

Lemma handle_consistent : forall s e, consistent s -> consistent (handle s e).
Proof.
  intros s e [H1 H2 H3 H4 H5 H6].
  destruct (handle_counters s e H1 H2 H3) as (G1 & G2 & G3).
  destruct (handle_cells_trimmed s e H5 H6) as (G5 & G6).
  constructor; auto using handle_rows_nonempty.
Qed.

Lemma reachable_consistent : forall s, reachable s -> consistent s.
Proof.
  induction 1 as [target s Hinit|s e _ IH].
  - unfold init in Hinit. destruct (Z.ltb_spec target 0); [discriminate|].
    injection Hinit as <-. now apply fresh_consistent.
  - now apply handle_consistent.
Qed.

Lemma feed_reachable : forall evs s, reachable s -> reachable (feed s evs).
Proof.
  induction evs as [|e evs IH]; intros s H; [exact H|].
  rewrite feed_cons. apply IH. now constructor.
Qed.

(** *** Text that reaches no cell *)

Lemma handle_data_ignored : forall s d,
  capture s && in_cell s = false -> handle s (Data d) = s.
Proof. intros s d H. simpl. unfold handle_data. now rewrite H. Qed.

Lemma feed_live_events : forall evs s, feed s (live_events s evs) = feed s evs.
Proof.
  induction evs as [|e evs IH]; intros s; [reflexivity|].
  destruct e as [tag a|tag|d|tag a]; cbn [live_events];
    try (rewrite !feed_cons; apply IH).
  destruct (capture s && in_cell s) eqn:Hlive.
  - rewrite !feed_cons. apply IH.
  - rewrite feed_cons, (handle_data_ignored s d Hlive). apply IH.
Qed.

(** *** The table counter *)

Lemma handle_table_index : forall s e,
  current_index (handle s e)
  = (current_index s + if is_table_open e then 1 else 0)%Z
  /\ target_index (handle s e) = target_index s.
Proof.
  intros s [tag a|tag|d|tag a]; simpl.
  - unfold handle_starttag, starttag_in_table.
    destruct (is_tag "table" tag); branches; fields; split; lia.
  - unfold handle_endtag. branches; fields; split; lia.
  - unfold handle_data. branches; fields; split; lia.
  - unfold handle_startendtag. branches; fields; split; lia.
Qed.

Lemma feed_table_index : forall evs s,
  current_index (feed s evs) = (current_index s + count_table_opens evs)%Z
  /\ target_index (feed s evs) = target_index s.
Proof.
  induction evs as [|e evs IH]; intros s.
  - simpl. unfold count_table_opens. simpl. split; lia.
  - rewrite feed_cons, count_table_opens_cons.
    destruct (IH (handle s e)) as [H1 H2].
    destruct (handle_table_index s e) as [G1 G2].
    rewrite H1, H2, G1, G2. split; lia.
Qed.

End Handlers.

(** ** Properties of the scanner *)

Section Scanner.

Lemma feed_page_target : forall ts trailer i t,
  forallb wf_sibling ts = true ->
  nth_error ts i = Some t ->
  rows (feed (fresh (Z.of_nat i)) (page ts trailer)) = table_rows t.
Proof.
  intros ts trailer i t Hwf Hnth.
  destruct (nth_error_split ts i Hnth) as (l1 & l2 & -> & Hlen).
  rewrite forallb_app in Hwf. apply andb_true_iff in Hwf as [Hwf1 Hwf2].
  simpl in Hwf2. apply andb_true_iff in Hwf2 as [Hwt _].
  destruct (wf_sibling_parts t Hwt) as (Hb & Ho & Hf & Hc).
  unfold page. rewrite flat_map_app. cbn [flat_map].
  unfold sibling_events at 2.
  rewrite <- !app_assoc, (app_assoc _ (before t)).
  set (pre := flat_map sibling_events l1 ++ before t).
  rewrite (feed_app _ pre), (feed_app _ (table_events t)).
  assert (Hcount : count_table_opens pre = Z.of_nat i).
  { unfold pre. rewrite count_table_opens_app, (count_siblings _ Hwf1).
    rewrite (count_table_opens_none _ Hb). lia. }
  rewrite (feed_before_target pre (fresh (Z.of_nat i))); fields;
    [|reflexivity|lia].
  rewrite Hcount.
  replace (with_current_index (-1 + Z.of_nat i) (fresh (Z.of_nat i)))
    with (reindex (Z.of_nat i) (Z.of_nat i - 1) (fresh 0))
    by (unfold with_current_index, reindex, fresh; fields; f_equal; lia).
  destruct (feed_target_table t (Z.of_nat i) Ho Hf Hc) as (H1 & H2 & H3 & H4).
  match goal with |- rows (feed ?s ?evs) = _ =>
    destruct (feed_after_target evs s) as [H5 _]
  end; [exact H2|lia|].
  now rewrite H5.
Qed.

Lemma feed_without_target : forall html target,
  (count_table_opens html <= target)%Z ->
  rows (feed (fresh target) html) = [].
Proof.
  intros html target H.
  rewrite feed_before_target; fields; [reflexivity|reflexivity|lia].
Qed.

Lemma rows_or_not_found_empty : forall parser html,
  rows (feed parser html) = [] ->
  rows_or_not_found parser html = inl (ValueError
    "No table rows were found. Check that the page structure has not changed.").
Proof.
  intros parser html Hr. unfold rows_or_not_found. now rewrite Hr.
Qed.

Lemma rows_or_not_found_rows : forall parser html rs,
  rows_or_not_found parser html = inr rs ->
  rs = rows (feed parser html) /\ rs <> [].
Proof.
  intros parser html rs. unfold rows_or_not_found.
  destruct (rows (feed parser html)) as [|r rs'] eqn:E; [discriminate|].
  intros H. injection H as <-. split; [reflexivity|discriminate].
Qed.

(** With a parser built as [__init__] has it, an index at or beyond the
    number of tables ends in the not-found error. *)
Lemma rows_or_not_found_beyond : forall html target,
  (count_table_opens html <= target)%Z ->
  rows_or_not_found (fresh target) html = inl (ValueError
    "No table rows were found. Check that the page structure has not changed.").
Proof.
  intros html target H. apply rows_or_not_found_empty.
  now apply feed_without_target.
Qed.

Lemma call_init_right_keyword : forall value,
  call_init "target_index" value = init value.
Proof. reflexivity. Qed.

Lemma call_init_wrong_keyword : forall value,
  call_init "table_index" value = inl (TypeError
    "_TableParser.__init__() got an unexpected keyword argument 'table_index'").
Proof. reflexivity. Qed.

Lemma lower_tag_eq : forall name tag,
  is_tag name tag = true -> lower tag = py name.
Proof. intros name tag H. now apply eqb_eq. Qed.


(** *** Examples of the specification *)

Example example_one_row :
  rows (feed (fresh 0) example_markup) = [[py "A"; py "B C"]].
Proof. vm_compute. reflexivity. Qed.

Example example_second_table :
  rows (feed (fresh 1) (page [first_table; second_table] [txt "end"]))
  = [[py "Gate" ++ LF :: py "3"; py "open"]].
Proof. vm_compute. reflexivity. Qed.

(** *** The claims *)

(** C1. On a page of non-nested sibling tables, with the index [i] of one
    of them as target, the scanner returns the rows of the [i]-th table
    and nothing of the others: its output is what it makes of that table
    alone, and for a well-formed table these are the rows the table stands
    for, in order. *)
Theorem sibling_table_rows : forall ts trailer i t,
  forallb wf_sibling ts = true ->
  nth_error ts i = Some t ->
  init (Z.of_nat i) = inr (fresh (Z.of_nat i))
  /\ rows (feed (fresh (Z.of_nat i)) (page ts trailer)) = table_rows t
  /\ (forall rs, body t = rows_events rs -> table_rows t = expected_rows rs).
Proof.
  intros ts trailer i t Hwf Hnth. split; [apply init_fresh; lia|]. split.
  - now apply feed_page_target.
  - intros rs Hb.
    destruct (nth_error_split ts i Hnth) as (l1 & l2 & -> & _).
    rewrite forallb_app in Hwf. apply andb_true_iff in Hwf as [_ Hwf].
    simpl in Hwf. apply andb_true_iff in Hwf as [Hwt _].
    destruct (wf_sibling_parts t Hwt) as (_ & Ho & _ & Hc).
    now apply table_rows_well_formed.
Qed.

Lemma sibling_table_rows_witness :
  forallb wf_sibling [first_table; second_table] = true
  /\ nth_error [first_table; second_table] 1 = Some second_table
  /\ rows (feed (fresh 1) (page [first_table; second_table] [txt "end"]))
     = table_rows second_table
  /\ table_rows second_table = [[py "Gate" ++ LF :: py "3"; py "open"]].
Proof.
  assert (Hwf : forallb wf_sibling [first_table; second_table] = true)
    by reflexivity.
  assert (Hnth : nth_error [first_table; second_table] 1 = Some second_table)
    by reflexivity.
  destruct (sibling_table_rows [first_table; second_table] [txt "end"] 1
              second_table Hwf Hnth) as (_ & H1 & H2).
  split; [exact Hwf|]. split; [exact Hnth|]. split; [exact H1|].
  rewrite (H2 _ eq_refl). vm_compute. reflexivity.
Defined.

(** C2, as amended.  The string a cell-close boundary appends to the row
    is the text of the accumulated fragments, and that text is the one the
    specification describes (non-breaking spaces replaced, split on line
    separators, each line trimmed, rejoined with line separators if there
    are several lines, white-space runs collapsed otherwise) trimmed once
    more at both ends.  A cell of two lines with something on each yields
    the two trimmed lines with a line separator between them. *)
Theorem cell_close_text : forall s tag,
  capture s = true -> in_cell s = true ->
  is_tag "td" tag || is_tag "th" tag = true ->
  current_row (handle s (EndTag tag))
    = current_row s ++ [cell_text (cell_parts s)]
  /\ cell_text (cell_parts s) = strip (cell_text_spec (cell_parts s))
  /\ (forall l1 l2,
        concat (cell_parts s) = l1 ++ LF :: l2 ->
        Forall (fun c => islinebreak c = false) l1 ->
        Forall (fun c => islinebreak c = false) l2 ->
        strip (replace_char NBSP SP l1) <> [] ->
        strip (replace_char NBSP SP l2) <> [] ->
        cell_text (cell_parts s)
        = strip (replace_char NBSP SP l1)
            ++ LF :: strip (replace_char NBSP SP l2)).
Proof.
  intros s tag Hc Hi Ht. split; [|split].
  - simpl. unfold handle_endtag.
    assert (Hn : PyStr.eqb (lower tag) (py "table") = false).
    { apply orb_true_iff in Ht as [Ht|Ht];
        rewrite (lower_tag_eq _ _ Ht); reflexivity. }
    unfold is_tag in Ht. rewrite Hn, Hc, Hi, Ht. reflexivity.
  - apply cell_text_strip_spec.
  - intros l1 l2. apply cell_text_two_lines.
Qed.

Lemma cell_close_text_witness :
  capture flight_cell = true /\ in_cell flight_cell = true
  /\ is_tag "td" (py "TD") || is_tag "th" (py "TD") = true
  /\ current_row (handle flight_cell (EndTag (py "TD")))
     = [py "Flight AB1" ++ LF :: py "Gate 3"].
Proof.
  split; [reflexivity|]. split; [reflexivity|]. split; [reflexivity|].
  destruct (cell_close_text flight_cell (py "TD") eq_refl eq_refl eq_refl)
    as (H1 & _ & H3).
  rewrite H1.
  rewrite (H3 (py " Flight" ++ [NBSP] ++ py "AB1 ") (py "Gate 3")).
  - vm_compute. reflexivity.
  - reflexivity.
  - vm_compute. repeat constructor.
  - vm_compute. repeat constructor.
  - vm_compute. discriminate.
  - vm_compute. discriminate.
Defined.

(** C2, as stated, fails: a cell that opens with a line break.  The code
    trims the rejoined lines, the description does not. *)
Lemma cell_text_spec_counterexample :
  cell_text [[LF]; py "abc"] = py "abc"
  /\ cell_text_spec [[LF]; py "abc"] = LF :: py "abc"
  /\ cell_text [[LF]; py "abc"] <> cell_text_spec [[LF]; py "abc"].
Proof.
  split; [vm_compute; reflexivity|]. split; [vm_compute; reflexivity|].
  vm_compute. discriminate.
Qed.


(** C3. [fetch_table_rows] does not get as far as the not-found error:
    it builds its parser with the keyword [table_index], which [__init__]
    does not have, so every call raises [TypeError] at that line, whatever
    the markup and the index, and the test for an empty result is never
    reached. *)
Theorem fetch_table_rows_type_error : forall html table_index,
  fetch_table_rows html table_index = inl (TypeError
    "_TableParser.__init__() got an unexpected keyword argument 'table_index'").
Proof.
  intros html table_index. unfold fetch_table_rows.
  now rewrite call_init_wrong_keyword.
Qed.

(** C4. A negative table index is refused with the invalid-argument error
    when the parser is built: there is no parser, and whatever was to be
    done with it, feeding markup to it first of all, is not done. *)
Theorem negative_index_rejected : forall target,
  (target < 0)%Z ->
  init target = inl (ValueError "table index must be >= 0")
  /\ (forall (A : Type) (k : TableParser -> result A),
        (parser <- init target ;; k parser)
        = inl (ValueError "table index must be >= 0")).
Proof.
  intros target H. pose proof (init_negative target H) as Hi.
  split; [exact Hi|]. intros A k. now rewrite Hi.
Qed.

Lemma negative_index_rejected_witness :
  (-1 < 0)%Z
  /\ init (-1) = inl (ValueError "table index must be >= 0")
  /\ (parser <- init (-1) ;; ret (rows (feed parser example_markup)))
     = inl (ValueError "table index must be >= 0").
Proof.
  assert (H : (-1 < 0)%Z) by lia.
  destruct (negative_index_rejected (-1) H) as [H1 H2].
  split; [exact H|]. split; [exact H1|].
  exact (H2 _ (fun parser => ret (rows (feed parser example_markup)))).
Defined.

(** C5. Every row of the output has at least one cell: the scanner keeps
    this true at every step, from any state, and a step taken with no cell
    in the current row (the close of an empty row among them) adds nothing
    to the output. *)
Theorem rows_have_cells : forall s evs,
  Forall (fun r => r <> []) (rows s) ->
  Forall (fun r => r <> []) (rows (feed s evs))
  /\ (forall e, current_row s = [] -> rows (handle s e) = rows s).
Proof.
  intros s evs H. split.
  - revert s H. induction evs as [|e evs IH]; intros s H; [exact H|].
    rewrite feed_cons. apply IH. now apply handle_rows_nonempty.
  - intros e. apply handle_rows_kept.
Qed.

Lemma rows_have_cells_witness :
  Forall (fun r : row => r <> []) (rows (fresh 0))
  /\ Forall (fun r : row => r <> []) (rows (feed (fresh 0) example_markup))
  /\ rows (handle (feed (fresh 0) [otag "table"; otag "tr"]) (ctag "tr")) = [].
Proof.
  assert (H : Forall (fun r : row => r <> []) (rows (fresh 0)))
    by constructor.
  split; [exact H|]. split.
  - exact (proj1 (rows_have_cells (fresh 0) example_markup H)).
  - assert (H' : Forall (fun r : row => r <> [])
                   (rows (feed (fresh 0) [otag "table"; otag "tr"])))
      by constructor.
    exact (proj2 (rows_have_cells _ [] H') (ctag "tr") eq_refl).
Defined.

(** C6. In a state the scanner reaches, capture is on exactly when the
    depth is not zero.  While it is on, a table-open boundary adds one to
    the depth, a table-close boundary takes one off and stops the capture
    exactly when the depth comes to zero, and the rows of a nested table
    are appended to the output as rows of the captured table, the capture
    going on at the depth it had. *)
Theorem nesting_depth : forall s,
  reachable s ->
  (capture s = false <-> table_depth s = 0%Z)
  /\ (capture s = true ->
      (forall e, is_table_open e = true ->
         capture (handle s e) = true
         /\ table_depth (handle s e) = (table_depth s + 1)%Z)
      /\ (forall e, is_table_close e = true ->
           table_depth (handle s e) = (table_depth s - 1)%Z
           /\ (capture (handle s e) = false
               <-> table_depth (handle s e) = 0%Z))
      /\ (forall o c rs,
           is_table_open o = true -> is_table_close c = true ->
           let s' := feed s (o :: rows_events rs ++ [c]) in
           rows s' = rows s ++ expected_rows rs
           /\ capture s' = true /\ table_depth s' = table_depth s)).
Proof.
  intros s Hr. destruct (reachable_consistent s Hr) as [_ Hcap Hidle _ _ _].
  split.
  - split; [exact Hidle|]. intros Hd.
    destruct (capture s) eqn:Hc; [|reflexivity].
    destruct Hcap as [_ H]; [reflexivity|lia].
  - intros Hc. destruct Hcap as [Hi Hd]; [exact Hc|]. split; [|split].
    + intros e He. rewrite (handle_nested_open s e Hc He Hi). fields. auto.
    + intros e He. rewrite (handle_close s e Hc He). fields.
      split; [reflexivity|].
      destruct (Z.eqb_spec (table_depth s - 1) 0); simpl; split;
        intros; congruence.
    + intros o c rs Ho Hcl. cbv zeta.
      rewrite feed_cons, feed_app, (handle_nested_open s o Hc Ho Hi).
      match goal with |- context [feed ?s1 (rows_events rs)] =>
        destruct (feed_rows rs s1 eq_refl) as ((H1 & H2 & H3 & H4) & H5);
        set (s2 := feed s1 (rows_events rs)) in *
      end.
      fields. change (feed s2 [c]) with (handle s2 c).
      rewrite (handle_close s2 c H1 Hcl). fields. rewrite H5, H2.
      split; [reflexivity|].
      replace (table_depth s + 1 - 1)%Z with (table_depth s) by lia.
      split; [|reflexivity].
      destruct (Z.eqb_spec (table_depth s) 0); [lia|reflexivity].
Qed.

Lemma in_first_row_reachable : reachable in_first_row.
Proof.
  unfold in_first_row. apply feed_reachable.
  apply (reach_init 0). reflexivity.
Qed.

Lemma nesting_depth_witness :
  reachable in_first_row /\ capture in_first_row = true
  /\ rows (feed in_first_row
             (otag "table" :: rows_events nested_rows ++ [ctag "table"]))
     = [[py "B"]]
  /\ table_depth (handle in_first_row (otag "table")) = 2%Z
  /\ capture (handle in_first_row (ctag "table")) = false.
Proof.
  pose proof in_first_row_reachable as Hr.
  destruct (nesting_depth in_first_row Hr) as (_ & H).
  destruct (H eq_refl) as (Hopen & Hclose & Hfold).
  split; [exact Hr|]. split; [reflexivity|]. split; [|split].
  - destruct (Hfold (otag "table") (ctag "table") nested_rows
                eq_refl eq_refl) as (H1 & _).
    rewrite H1. vm_compute. reflexivity.
  - destruct (Hopen (otag "table") eq_refl) as (_ & H2).
    rewrite H2. reflexivity.
  - destruct (Hclose (ctag "table") eq_refl) as (H3 & H4).
    apply H4. rewrite H3. reflexivity.
Defined.


(** C7. A cell whose fragments hold nothing but white space and
    non-breaking spaces, line-break markers included, has the empty string
    as its text. *)
Theorem blank_cell_empty : forall parts,
  Forall (Forall (fun c => isspace c = true \/ c = NBSP)) parts ->
  cell_text parts = [].
Proof.
  intros parts H.
  assert (Hsp : Forall (fun c => isspace c = true) (concat parts)).
  { apply Forall_concat. eapply Forall_impl; [|exact H].
    intros l Hl. eapply Forall_impl; [|exact Hl].
    intros c [Hc | ->]; [exact Hc|reflexivity]. }
  unfold cell_text. cbv zeta.
  set (text := replace_char NBSP SP (concat parts)).
  assert (Hj : Forall (fun c => isspace c = true)
                 (join [LF] (map strip (splitlines text)))).
  { apply join_LF_spaces, Forall_map.
    eapply Forall_impl; [|apply splitlines_Forall, replace_spaces, Hsp].
    intros l Hl. now apply Forall_strip. }
  destruct (negb (contains LF _)).
  - now rewrite (split_spaces _ Hj).
  - now apply strip_spaces.
Qed.

Lemma blank_cell_empty_witness :
  Forall (Forall (fun c => isspace c = true \/ c = NBSP))
    [[SP; NBSP]; [LF]; [9%N; NBSP]; [CR; LF]]
  /\ cell_text [[SP; NBSP]; [LF]; [9%N; NBSP]; [CR; LF]] = [].
Proof.
  assert (H : Forall (Forall (fun c => isspace c = true \/ c = NBSP))
                [[SP; NBSP]; [LF]; [9%N; NBSP]; [CR; LF]])
    by (repeat constructor).
  split; [exact H|]. exact (blank_cell_empty _ H).
Defined.

(** C8. In every state of the scanner a line-break marker does the same
    whether it comes as an open boundary or as a self-closing one. *)
Theorem line_break_forms_agree : forall s tag a a',
  is_tag "br" tag = true ->
  handle s (StartTag tag a) = handle s (StartEndTag tag a').
Proof.
  intros s tag a a' H. pose proof (lower_tag_eq _ _ H) as Hl. simpl.
  unfold handle_starttag, starttag_in_table, handle_startendtag, is_tag.
  rewrite Hl.
  change (PyStr.eqb (py "br") (py "table")) with false.
  change (PyStr.eqb (py "br") (py "tr")) with false.
  change (PyStr.eqb (py "br") (py "td")) with false.
  change (PyStr.eqb (py "br") (py "th")) with false.
  change (PyStr.eqb (py "br") (py "br")) with true.
  destruct (capture s), (in_cell s); reflexivity.
Qed.

Lemma line_break_forms_agree_witness :
  is_tag "br" (py "BR") = true
  /\ handle flight_cell (StartTag (py "BR") [])
     = handle flight_cell (StartEndTag (py "BR") [(py "class", None)]).
Proof.
  assert (H : is_tag "br" (py "BR") = true) by reflexivity.
  split; [exact H|]. exact (line_break_forms_agree flight_cell _ _ _ H).
Defined.

(** C9. Whatever the markup and the target index, no cell of the rows the
    scanner returns begins or ends with white space. *)
Theorem output_cells_trimmed : forall target html s,
  init target = inr s ->
  Forall (Forall trimmed) (rows (feed s html)).
Proof.
  intros target html s H.
  apply reachable_consistent, feed_reachable.
  now apply (reach_init target).
Qed.

Lemma output_cells_trimmed_witness :
  init 0 = inr (fresh 0)
  /\ Forall (Forall trimmed) (rows (feed (fresh 0) example_markup)).
Proof.
  assert (H : init 0 = inr (fresh 0)) by reflexivity.
  split; [exact H|]. exact (output_cells_trimmed 0 example_markup _ H).
Defined.

(** C10. Text data that arrives while the scanner is not capturing, or
    has no cell open, leaves the state as it is; so two markups that are
    the same once such text is left out bring the scanner to the same
    state, and to the same rows. *)
Theorem text_outside_cells_ignored : forall s evs1 evs2,
  live_events s evs1 = live_events s evs2 ->
  (forall d, capture s && in_cell s = false -> handle s (Data d) = s)
  /\ feed s evs1 = feed s evs2
  /\ rows (feed s evs1) = rows (feed s evs2).
Proof.
  intros s evs1 evs2 H. split; [|split].
  - intros d. apply handle_data_ignored.
  - now rewrite <- (feed_live_events evs1), <- (feed_live_events evs2), H.
  - now rewrite <- (feed_live_events evs1), <- (feed_live_events evs2), H.
Qed.

Lemma text_outside_cells_ignored_witness :
  live_events (fresh 0) (txt "x" :: example_markup)
  = live_events (fresh 0)
      (otag "table" :: txt " " :: otag "tr" :: txt "y"
         :: tl (tl example_markup))
  /\ rows (feed (fresh 0) (txt "x" :: example_markup))
     = rows (feed (fresh 0)
               (otag "table" :: txt " " :: otag "tr" :: txt "y"
                  :: tl (tl example_markup))).
Proof.
  assert (H : live_events (fresh 0) (txt "x" :: example_markup)
              = live_events (fresh 0)
                  (otag "table" :: txt " " :: otag "tr" :: txt "y"
                     :: tl (tl example_markup)))
    by (vm_compute; reflexivity).
  split; [exact H|].
  exact (proj2 (proj2 (text_outside_cells_ignored _ _ _ H))).
Defined.

End Scanner.

(** ** Further properties of the scanner *)

Section ScannerMore.

Lemma feed_isolated_table : forall pre t post i,
  count_table_opens pre = i ->
  is_table_open (sopen t) = true -> table_free (body t) = true ->
  is_table_close (sclose t) = true ->
  rows (feed (fresh i) (pre ++ table_events t ++ post)) = table_rows t.
Proof.
  intros pre t post i Hcount Ho Hf Hc.
  rewrite (feed_app _ pre), (feed_app _ (table_events t)).
  rewrite (feed_before_target pre (fresh i)); fields; [|reflexivity|lia].
  rewrite Hcount.
  replace (with_current_index (-1 + i) (fresh i))
    with (reindex i (i - 1) (fresh 0))
    by (unfold with_current_index, reindex, fresh; fields; f_equal; lia).
  destruct (feed_target_table t i Ho Hf Hc) as (H1 & H2 & H3 & H4).
  match goal with |- rows (feed ?s ?evs) = _ =>
    destruct (feed_after_target evs s) as [H5 _]
  end; [exact H2|lia|].
  now rewrite H5.
Qed.

(** X1. Tables are numbered by their open boundaries in document order,
    whatever the nesting: after markup with [i] table-open boundaries, a
    table without table boundaries inside is the target of index [i], and
    the output is the rows of that table, whatever follows it. *)
Theorem target_is_ith_table_open : forall pre t post i,
  count_table_opens pre = i ->
  is_table_open (sopen t) = true -> table_free (body t) = true ->
  is_table_close (sclose t) = true ->
  rows (feed (fresh i) (pre ++ table_events t ++ post)) = table_rows t.
Proof.
  intros pre t post i Hcount Ho Hf Hc.
  now apply feed_isolated_table.
Qed.

Lemma target_is_ith_table_open_witness :
  count_table_opens nested_before = 2%Z
  /\ rows (feed (fresh 2)
             (nested_before ++ table_events second_table ++ [ctag "table"]))
     = [[py "Gate" ++ LF :: py "3"; py "open"]].
Proof.
  assert (H : count_table_opens nested_before = 2%Z) by reflexivity.
  split; [exact H|].
  rewrite (target_is_ith_table_open nested_before second_table
             [ctag "table"] 2 H eq_refl eq_refl eq_refl).
  vm_compute. reflexivity.
Defined.

(** X2. Once the target table is closed the output is final: whatever
    markup follows, the rows stay what they are and the capture stays
    off. *)
Theorem output_final_after_close : forall target pre post,
  capture (feed (fresh target) pre) = false ->
  (target <= current_index (feed (fresh target) pre))%Z ->
  rows (feed (fresh target) (pre ++ post)) = rows (feed (fresh target) pre)
  /\ capture (feed (fresh target) (pre ++ post)) = false.
Proof.
  intros target pre post Hc Hi. rewrite feed_app.
  apply feed_after_target; [exact Hc|].
  destruct (feed_table_index pre (fresh target)) as [_ Ht].
  rewrite Ht. exact Hi.
Qed.

Lemma output_final_after_close_witness :
  capture (feed (fresh 0) example_markup) = false
  /\ (0 <= current_index (feed (fresh 0) example_markup))%Z
  /\ rows (feed (fresh 0) (example_markup ++ table_events second_table))
     = [[py "A"; py "B C"]].
Proof.
  assert (H1 : capture (feed (fresh 0) example_markup) = false)
    by reflexivity.
  assert (H2 : (0 <= current_index (feed (fresh 0) example_markup))%Z)
    by (vm_compute; discriminate).
  split; [exact H1|]. split; [exact H2|].
  rewrite (proj1 (output_final_after_close 0 example_markup
                    (table_events second_table) H1 H2)).
  vm_compute. reflexivity.
Defined.

Lemma feed_rows_prefix : forall evs s,
  exists added, rows (feed s evs) = rows s ++ added.
Proof.
  induction evs as [|e evs IH]; intros s.
  - exists []. simpl. now rewrite app_nil_r.
  - rewrite feed_cons. destruct (IH (handle s e)) as [added Ha].
    destruct (handle_rows s e) as [E | [_ E]]; rewrite Ha, E.
    + now exists added.
    + exists ([current_row s] ++ added). now rewrite app_assoc.
Qed.

(** X3. The output only grows: the rows the scanner holds stay where they
    are, unchanged, whatever markup follows; and the table counter is the
    number of table-open boundaries met, the target index staying what it
    was. *)
Theorem output_append_only : forall s evs,
  (exists added, rows (feed s evs) = rows s ++ added)
  /\ current_index (feed s evs)
     = (current_index s + count_table_opens evs)%Z
  /\ target_index (feed s evs) = target_index s.
Proof.
  intros s evs. split; [apply feed_rows_prefix|apply feed_table_index].
Qed.

(** *** Tag names *)

Lemma lower_char_idempotent : forall c, lower_char (lower_char c) = lower_char c.
Proof.
  intros c. unfold lower_char.
  destruct ((65 <=? c) && (c <=? 90))%N eqn:E; [|now rewrite E].
  apply andb_true_iff in E as [E1 E2].
  apply N.leb_le in E1, E2.
  destruct (N.leb_spec (c + 32) 90); [lia|].
  now rewrite andb_false_r.
Qed.

Lemma lower_idempotent : forall tag, lower (lower tag) = lower tag.
Proof.
  intros tag. unfold lower. rewrite map_map.
  apply map_ext. apply lower_char_idempotent.
Qed.

Lemma is_tag_lower : forall name tag, is_tag name (lower tag) = is_tag name tag.
Proof. intros name tag. unfold is_tag. now rewrite lower_idempotent. Qed.

Lemma handle_normalize : forall s e, handle s (normalize_event e) = handle s e.
Proof.
  intros s [tag a|tag|d|tag a]; simpl.
  - unfold handle_starttag, starttag_in_table. now rewrite !is_tag_lower.
  - unfold handle_endtag. now rewrite lower_idempotent.
  - reflexivity.
  - unfold handle_startendtag. now rewrite !is_tag_lower.
Qed.

(** X4. The scanner sees of a tag its name in lower case and nothing
    else: with every tag name lowered and every attribute removed the
    markup brings the scanner to the same state. *)
Theorem tags_case_and_attributes_ignored : forall evs s,
  feed s (map normalize_event evs) = feed s evs.
Proof.
  induction evs as [|e evs IH]; intros s; [reflexivity|].
  cbn [map]. now rewrite !feed_cons, handle_normalize, IH.
Qed.

Lemma handle_irrelevant : forall s e, relevant e = false -> handle s e = s.
Proof.
  intros s [tag a|tag|d|tag a] H; simpl in *.
  - repeat (apply orb_false_iff in H as [H ?]).
    unfold handle_starttag, starttag_in_table.
    repeat match goal with
           | E : is_tag _ _ = false |- _ => rewrite E; clear E
           end.
    simpl. now destruct (capture s).
  - repeat (apply orb_false_iff in H as [H ?]).
    unfold handle_endtag. unfold is_tag in *.
    repeat match goal with
           | E : PyStr.eqb _ _ = false |- _ => rewrite E; clear E
           end.
    simpl. now destruct (capture s).
  - discriminate.
  - unfold handle_startendtag. now rewrite H.
Qed.

(** X5. Markup the handlers have no branch for is transparent: start
    tags other than table, tr, td, th and br, end tags other than table,
    tr, td and th, and self-closing tags other than br (a self-closing
    table, row or cell among them) can be left out of the markup without
    changing the state the scanner reaches. *)
Theorem other_markup_transparent : forall evs s,
  feed s (filter relevant evs) = feed s evs.
Proof.
  induction evs as [|e evs IH]; intros s; [reflexivity|].
  cbn [filter]. destruct (relevant e) eqn:E.
  - now rewrite !feed_cons, IH.
  - now rewrite feed_cons, (handle_irrelevant s e E), IH.
Qed.


(** *** Rows and cells that are not closed *)

Lemma handle_rows_row_close : forall s e,
  is_row_close e = false -> rows (handle s e) = rows s.
Proof.
  intros s [tag a|tag|d|tag a] H; simpl in *.
  - unfold handle_starttag, starttag_in_table. branches; reflexivity.
  - unfold handle_endtag. unfold is_tag in H. rewrite H. cbn [andb].
    branches; reflexivity.
  - unfold handle_data. branches; reflexivity.
  - unfold handle_startendtag. branches; reflexivity.
Qed.

Lemma handle_rows_length : forall s e,
  (length (rows (handle s e))
   <= length (rows s) + if is_row_close e then 1 else 0)%nat.
Proof.
  intros s e. destruct (is_row_close e) eqn:E.
  - destruct (handle_rows s e) as [-> | [_ ->]];
      rewrite ?length_app; simpl; lia.
  - rewrite (handle_rows_row_close s e E). lia.
Qed.

(** X6. A row reaches the output only at a row-close boundary: the
    scanner holds at most one row more for each row-close boundary fed to
    it. *)
Theorem rows_need_row_close : forall evs s,
  (length (rows (feed s evs))
   <= length (rows s) + length (filter is_row_close evs))%nat.
Proof.
  induction evs as [|e evs IH]; intros s; [simpl; lia|].
  rewrite feed_cons. specialize (IH (handle s e)).
  pose proof (handle_rows_length s e) as H.
  cbn [filter]. destruct (is_row_close e); simpl length; lia.
Qed.

Lemma handle_current_row_cell_close : forall s e,
  is_cell_close e = false -> current_row s = [] ->
  current_row (handle s e) = [].
Proof.
  intros s [tag a|tag|d|tag a] H Hr; simpl in *.
  - unfold handle_starttag, starttag_in_table. branches; fields; auto.
  - unfold handle_endtag. unfold is_tag in H.
    apply orb_false_iff in H as [H1 H2]. rewrite H1, H2. cbn [andb orb].
    branches; fields; auto.
  - unfold handle_data. branches; fields; auto.
  - unfold handle_startendtag. branches; fields; auto.
Qed.

Lemma feed_no_cell_close : forall evs s,
  forallb (fun e => negb (is_cell_close e)) evs = true ->
  current_row s = [] ->
  rows (feed s evs) = rows s.
Proof.
  induction evs as [|e evs IH]; intros s H Hr; [reflexivity|].
  simpl in H. apply andb_true_iff in H as [He Hevs].
  apply negb_true_iff in He. rewrite feed_cons.
  rewrite IH; [|exact Hevs|now apply handle_current_row_cell_close].
  now apply handle_rows_kept.
Qed.

Lemma feed_no_row_close : forall evs s,
  forallb (fun e => negb (is_row_close e)) evs = true ->
  rows (feed s evs) = rows s.
Proof.
  induction evs as [|e evs IH]; intros s H; [reflexivity|].
  simpl in H. apply andb_true_iff in H as [He Hevs].
  apply negb_true_iff in He. rewrite feed_cons, IH by exact Hevs.
  now apply handle_rows_row_close.
Qed.

(** X7. The end tags of rows and cells are not optional for the scanner:
    from markup without any row-close boundary, or without any cell-close
    boundary, it gets no rows at all. *)
Theorem end_tags_required : forall html target,
  forallb (fun e => negb (is_row_close e)) html = true
  \/ forallb (fun e => negb (is_cell_close e)) html = true ->
  rows (feed (fresh target) html) = [].
Proof.
  intros html target [H|H].
  - now rewrite feed_no_row_close.
  - now rewrite feed_no_cell_close.
Qed.

Lemma end_tags_required_witness :
  forallb (fun e => negb (is_cell_close e))
    [otag "table"; otag "tr"; otag "td"; txt "A"; otag "td"; txt "B";
     ctag "tr"; ctag "table"] = true
  /\ rows (feed (fresh 0)
             [otag "table"; otag "tr"; otag "td"; txt "A"; otag "td";
              txt "B"; ctag "tr"; ctag "table"]) = [].
Proof.
  assert (H1 : forallb (fun e => negb (is_cell_close e))
                 [otag "table"; otag "tr"; otag "td"; txt "A"; otag "td";
                  txt "B"; ctag "tr"; ctag "table"] = true) by reflexivity.
  split; [exact H1|].
  exact (end_tags_required _ 0 (or_intror H1)).
Defined.

(** X8. A row-open boundary starts the row afresh: the cells of a row
    that was opened and not closed are lost when the next row opens, and
    the output gets the later row alone. *)
Theorem unclosed_row_lost : forall s r1 r2,
  capture s = true ->
  rows (feed s (otag "tr" :: flat_map cell_events r1 ++ row_events r2))
  = rows s ++ filter nonempty_row [map cell_value r2].
Proof.
  intros s r1 r2 Hc.
  rewrite feed_cons, feed_app, (handle_row_open s Hc).
  match goal with |- context [feed ?s1 (flat_map _ _)] =>
    destruct (feed_cells r1 s1 Hc) as ((H1 & _) & _ & H6 & _);
    set (s2 := feed s1 (flat_map cell_events r1)) in *
  end.
  fields.
  destruct (feed_row r2 s2) as (_ & H); [congruence|].
  now rewrite H, H6.
Qed.

Lemma unclosed_row_lost_witness :
  capture (handle (fresh 0) (otag "table")) = true
  /\ rows (feed (handle (fresh 0) (otag "table")) unclosed_then_closed)
     = [[py "kept"]].
Proof.
  assert (H : capture (handle (fresh 0) (otag "table")) = true)
    by reflexivity.
  split; [exact H|].
  unfold unclosed_then_closed.
  rewrite (unclosed_row_lost _ [mkCell false [Text (py "lost")]]
             [mkCell false [Text (py "kept")]] H).
  vm_compute. reflexivity.
Defined.


(** *** The characters of a cell *)

Lemma splitlines_Forall_no_break : forall (P : char -> Prop) s,
  Forall P s ->
  Forall (Forall (fun c => P c /\ islinebreak c = false)) (splitlines s).
Proof.
  intros P s. induction s as [|c r IH1 IH2] using str_ind2; intros H.
  - constructor.
  - inversion H as [|? ? Hc Hr]; subst. cbn [splitlines].
    destruct (islinebreak c) eqn:Hb.
    + constructor; [constructor|].
      destruct r as [|c' r']; [constructor|].
      destruct (N.eqb c CR && N.eqb c' LF).
      * apply IH2. now inversion Hr.
      * now apply IH1.
    + specialize (IH1 Hr). destruct (splitlines r) as [|l ls].
      * repeat constructor; assumption.
      * inversion IH1; subst. constructor; [|assumption].
        constructor; [now split|assumption].
Qed.

Lemma Forall_join : forall (P : char -> Prop) sep ls,
  Forall P sep -> Forall (Forall P) ls -> Forall P (join sep ls).
Proof.
  intros P sep ls Hsep H. induction H as [|l ls Hl Hls IH]; [constructor|].
  destruct ls as [|l' ls']; [exact Hl|].
  rewrite join_cons2. apply Forall_app. split; [exact Hl|].
  apply Forall_app. split; [exact Hsep|exact IH].
Qed.

Lemma Forall_split : forall (P : char -> Prop) s,
  Forall P s -> Forall (Forall P) (split s).
Proof.
  intros P s H. induction H as [|c s Hc Hs IH]; [constructor|].
  cbn [split]. destruct (isspace c); [exact IH|].
  destruct (word_ends s).
  - constructor; [now repeat constructor|exact IH].
  - destruct (split s) as [|w ws].
    + now repeat constructor.
    + inversion IH; subst. constructor; [now constructor|assumption].
Qed.

Lemma replace_no_NBSP : forall s,
  Forall (fun c => c <> NBSP) (replace_char NBSP SP s).
Proof.
  intros s. unfold replace_char. apply Forall_map.
  apply Forall_forall. intros c _.
  destruct (N.eqb_spec c NBSP); [discriminate|assumption].
Qed.

Lemma cell_text_chars : forall parts,
  Forall (fun c => c <> NBSP /\ (islinebreak c = true -> c = LF))
    (cell_text parts).
Proof.
  intros parts. unfold cell_text. cbv zeta.
  set (P := fun c : char => c <> NBSP /\ (islinebreak c = true -> c = LF)).
  set (text := replace_char NBSP SP (concat parts)).
  assert (HLF : P LF) by (split; [discriminate|reflexivity]).
  assert (HSP : P SP) by (split; discriminate).
  assert (Hj : Forall P (join [LF] (map strip (splitlines text)))).
  { apply Forall_join; [now repeat constructor|]. apply Forall_map.
    eapply Forall_impl;
      [|apply splitlines_Forall_no_break, (replace_no_NBSP (concat parts))].
    intros l Hl. apply Forall_strip.
    eapply Forall_impl; [|exact Hl].
    intros c [H1 H2]. split; [exact H1|]. congruence. }
  apply Forall_strip. destruct (negb (contains LF _)); [|exact Hj].
  apply Forall_join; [now repeat constructor|]. now apply Forall_split.
Qed.

Lemma feed_cells_prop : forall (P : str -> Prop),
  (forall parts, P (cell_text parts)) ->
  forall evs s,
  Forall (Forall P) (rows s) -> Forall P (current_row s) ->
  Forall (Forall P) (rows (feed s evs))
  /\ Forall P (current_row (feed s evs)).
Proof.
  intros P HP. induction evs as [|e evs IH]; intros s Hr Hc; [now split|].
  rewrite feed_cons. apply IH.
  - destruct (handle_rows s e) as [-> | [_ ->]]; [exact Hr|].
    apply Forall_app. split; [exact Hr|]. now repeat constructor.
  - destruct (handle_current_row s e) as [-> | [-> | ->]];
      [exact Hc|constructor|].
    apply Forall_app. split; [exact Hc|]. now repeat constructor.
Qed.

(** X9. No cell of the output holds a non-breaking space, and the only
    line boundary a cell can hold is the line feed: carriage returns and
    the other separators [str.splitlines] knows are gone. *)
Theorem output_cell_characters : forall target html,
  Forall (Forall (Forall
    (fun c => c <> NBSP /\ (islinebreak c = true -> c = LF))))
    (rows (feed (fresh target) html)).
Proof.
  intros target html.
  apply (feed_cells_prop _ cell_text_chars html (fresh target));
    constructor.
Qed.

(** *** Cells of one line *)

Lemma word_ends_rstrip : forall r, word_ends (rstrip r) = word_ends r.
Proof.
  intros [|d r]; [reflexivity|]. rewrite rstrip_cons. simpl.
  destruct (rstrip r); [|reflexivity].
  destruct (isspace d) eqn:Hd; simpl; now rewrite ?Hd.
Qed.

Lemma split_rstrip : forall s, split (rstrip s) = split s.
Proof.
  induction s as [|c s IH]; [reflexivity|].
  destruct (isspace c) eqn:Hc.
  - rewrite rstrip_cons. cbn [split]. rewrite Hc.
    destruct (rstrip s) as [|d r'] eqn:Hr.
    + exact IH.
    + rewrite <- IH. cbn [split]. now rewrite Hc.
  - rewrite (rstrip_nonspace _ _ Hc). cbn [split].
    now rewrite Hc, word_ends_rstrip, IH.
Qed.

Lemma split_strip : forall s, split (strip s) = split s.
Proof. intros s. unfold strip. now rewrite split_rstrip, split_lstrip. Qed.

Lemma isspace_replace : forall c,
  isspace (if N.eqb c NBSP then SP else c) = isspace c.
Proof. intros c. destruct (N.eqb_spec c NBSP) as [->|]; reflexivity. Qed.

Lemma replace_nonspace : forall c,
  isspace c = false -> (if N.eqb c NBSP then SP else c) = c.
Proof.
  intros c H. destruct (N.eqb_spec c NBSP) as [->|]; [discriminate|reflexivity].
Qed.

Lemma word_ends_replace : forall s,
  word_ends (replace_char NBSP SP s) = word_ends s.
Proof. intros [|c s]; [reflexivity|]. simpl. apply isspace_replace. Qed.

Lemma split_replace : forall s, split (replace_char NBSP SP s) = split s.
Proof.
  induction s as [|c s IH]; [reflexivity|].
  change (replace_char NBSP SP (c :: s))
    with ((if N.eqb c NBSP then SP else c) :: replace_char NBSP SP s).
  cbn [split]. rewrite isspace_replace, word_ends_replace, IH.
  destruct (isspace c) eqn:Hc; [reflexivity|].
  now rewrite (replace_nonspace _ Hc).
Qed.

Lemma no_break_no_LF : forall s,
  Forall (fun c => islinebreak c = false) s -> Forall (fun c => c <> LF) s.
Proof.
  intros s H. eapply Forall_impl; [|exact H].
  intros c Hc ->. discriminate.
Qed.

(** X10. A cell without a line boundary in its fragments comes out as its
    words joined by single spaces, the non-breaking spaces counting as
    white space. *)
Theorem single_line_cell_words : forall parts,
  Forall (fun c => islinebreak c = false) (concat parts) ->
  cell_text parts = join [SP] (split (concat parts)).
Proof.
  intros parts H. unfold cell_text. cbv zeta.
  pose proof (replace_no_break _ H) as Hr.
  rewrite <- (split_replace (concat parts)).
  set (text := replace_char NBSP SP (concat parts)) in *.
  destruct text as [|c text'] eqn:E; [reflexivity|].
  rewrite splitlines_one_line by (auto; discriminate).
  cbn [map join].
  rewrite contains_absent by (apply Forall_strip, no_break_no_LF, Hr).
  cbn [negb]. now rewrite split_strip, strip_join_split.
Qed.

Lemma single_line_cell_words_witness :
  Forall (fun c => islinebreak c = false)
    (concat [py " B" ++ [NBSP; 9%N]; py "C  D "])
  /\ cell_text [py " B" ++ [NBSP; 9%N]; py "C  D "] = py "B C D".
Proof.
  assert (H : Forall (fun c => islinebreak c = false)
                (concat [py " B" ++ [NBSP; 9%N]; py "C  D "]))
    by (vm_compute; repeat constructor).
  split; [exact H|].
  rewrite (single_line_cell_words _ H). vm_compute. reflexivity.
Defined.

End ScannerMore.

(** ** The column widths *)

Section ColumnWidths.

Lemma splitlines_nonempty : forall s, s <> [] -> splitlines s <> [].
Proof.
  intros [|c r] H; [congruence|]. cbn [splitlines].
  destruct (islinebreak c); [discriminate|].
  destruct (splitlines r); discriminate.
Qed.

Lemma len_nonneg : forall s, (0 <= len s)%Z.
Proof. intros s. unfold len. lia. Qed.

Lemma fold_right_max_nonneg : forall xs, (0 <= fold_right Z.max 0 xs)%Z.
Proof. induction xs as [|x xs IH]; simpl; lia. Qed.

Lemma fold_left_max : forall xs x,
  fold_left Z.max xs x = Z.max x (fold_right Z.max 0%Z xs) \/ (x < 0)%Z.
Proof.
  induction xs as [|y xs IH]; intros x; simpl.
  - lia.
  - destruct (IH (Z.max x y)) as [-> | H]; lia.
Qed.

Lemma longest_line_nonneg : forall text, (0 <= longest_line text)%Z.
Proof. intros text. apply fold_right_max_nonneg. Qed.

Lemma text_width_value : forall text, text_width text = inr (longest_line text).
Proof.
  intros text. unfold text_width, longest_line.
  destruct text as [|c r]; [reflexivity|].
  pose proof (splitlines_nonempty (c :: r)) as Hne.
  destruct (splitlines (c :: r)) as [|l ls]; [now exfalso; apply Hne|].
  cbn [map py_max fold_right]. unfold ret. f_equal.
  destruct (fold_left_max (map len ls) (len l)) as [-> | H];
    [reflexivity|].
  pose proof (len_nonneg l). lia.
Qed.

(** *** The dictionary *)

Lemma dict_get_set_same : forall d k v default,
  dict_get (dict_set d k v) k default = v.
Proof.
  induction d as [|[k' v'] d IH]; intros k v default; simpl.
  - now rewrite Z.eqb_refl.
  - destruct (Z.eqb_spec k' k); simpl.
    + subst. now rewrite Z.eqb_refl.
    + destruct (Z.eqb_spec k' k); [congruence|]. apply IH.
Qed.

Lemma dict_get_set_other : forall d k k' v default,
  k' <> k -> dict_get (dict_set d k v) k' default = dict_get d k' default.
Proof.
  induction d as [|[k0 v0] d IH]; intros k k' v default H; simpl.
  - destruct (Z.eqb_spec k k'); [congruence|reflexivity].
  - destruct (Z.eqb_spec k0 k); simpl.
    + subst. destruct (Z.eqb_spec k k'); [congruence|reflexivity].
    + destruct (Z.eqb_spec k0 k'); [reflexivity|]. now apply IH.
Qed.

Lemma dict_set_keys_in : forall d k v,
  In k (map fst d) -> map fst (dict_set d k v) = map fst d.
Proof.
  induction d as [|[k' v'] d IH]; intros k v H; simpl in *; [contradiction|].
  destruct (Z.eqb_spec k' k); [reflexivity|]. simpl. f_equal.
  apply IH. destruct H; [congruence|assumption].
Qed.

Lemma dict_set_keys_new : forall d k v,
  ~ In k (map fst d) -> map fst (dict_set d k v) = map fst d ++ [k].
Proof.
  induction d as [|[k' v'] d IH]; intros k v H; simpl in *; [reflexivity|].
  destruct (Z.eqb_spec k' k); [exfalso; auto|]. simpl. f_equal.
  apply IH. auto.
Qed.

Lemma dict_as_map : forall d default,
  NoDup (map fst d) ->
  d = map (fun k => (k, dict_get d k default)) (map fst d).
Proof.
  induction d as [|[k v] d IH]; intros default H; [reflexivity|].
  simpl in *. inversion H as [|? ? Hk Hd]; subst.
  rewrite Z.eqb_refl. f_equal.
  rewrite (IH default Hd) at 1. apply map_ext_in.
  intros k' Hk'. destruct (Z.eqb_spec k k'); [congruence|reflexivity].
Qed.

Lemma in_columns : forall n c,
  In c (columns n) <-> (1 <= c <= Z.of_nat n)%Z.
Proof.
  intros n c. unfold columns. rewrite in_map_iff. split.
  - intros (i & <- & Hi). apply in_seq in Hi. lia.
  - intros H. exists (Z.to_nat c). split; [lia|]. apply in_seq. lia.
Qed.

Lemma columns_succ : forall n, columns (S n) = columns n ++ [Z.of_nat (S n)].
Proof. intros n. unfold columns. now rewrite seq_S, map_app. Qed.

Lemma NoDup_snoc : forall (l : list Z) a,
  NoDup l -> ~ In a l -> NoDup (l ++ [a]).
Proof.
  intros l a H. induction H as [|x l Hx Hl IH]; intros Ha; simpl.
  - constructor; [auto|constructor].
  - constructor.
    + rewrite in_app_iff. simpl in *. intuition.
    + apply IH. simpl in Ha. auto.
Qed.

Lemma columns_NoDup : forall n, NoDup (columns n).
Proof.
  induction n as [|n IH]; [constructor|].
  rewrite columns_succ. apply NoDup_snoc; [exact IH|].
  rewrite in_columns. lia.
Qed.


(** *** The loops *)

Lemma cell_longest_nonneg : forall row i, (0 <= cell_longest row i)%Z.
Proof.
  intros row i. unfold cell_longest.
  destruct (nth_error row i); [apply longest_line_nonneg|lia].
Qed.

Lemma dict_after_row_values : forall row c0 d,
  (forall c, 0 <= dict_get d c 0)%Z ->
  forall c,
    dict_get (dict_after_row c0 row d) c 0
    = Z.max (dict_get d c 0)
        (if (c0 <=? c)%Z then cell_longest row (Z.to_nat (c - c0)) else 0).
Proof.
  intros row. induction row as [|value row IH]; intros c0 d Hd c.
  - specialize (Hd c). unfold cell_longest.
    destruct (Z.to_nat (c - c0)); simpl; destruct (c0 <=? c)%Z; lia.
  - cbn [dict_after_row].
    set (w := longest_line (value_text value)).
    assert (Hw : (0 <= w)%Z) by apply longest_line_nonneg.
    set (d1 := dict_set d c0 (Z.max (dict_get d c0 0) w)).
    assert (Hd1 : forall c, (0 <= dict_get d1 c 0)%Z).
    { intros c'. unfold d1. destruct (Z.eq_dec c' c0) as [->|Hne].
      - rewrite dict_get_set_same. specialize (Hd c0). lia.
      - rewrite dict_get_set_other by exact Hne. apply Hd. }
    rewrite (IH (c0 + 1)%Z d1 Hd1).
    pose proof (cell_longest_nonneg row (Z.to_nat (c - (c0 + 1)))) as Hn.
    specialize (Hd c).
    destruct (Z.eq_dec c c0) as [->|Hne].
    + unfold d1. rewrite dict_get_set_same.
      destruct (Z.leb_spec (c0 + 1) c0); [lia|].
      rewrite Z.leb_refl, Z.sub_diag. unfold cell_longest. simpl.
      fold w. lia.
    + unfold d1. rewrite dict_get_set_other by exact Hne.
      destruct (Z.leb_spec (c0 + 1) c), (Z.leb_spec c0 c); try lia.
      replace (Z.to_nat (c - c0)) with (S (Z.to_nat (c - (c0 + 1)))) by lia.
      reflexivity.
Qed.

Lemma dict_after_row_keys : forall row c0 d n,
  map fst d = columns n ->
  (1 <= c0 <= Z.of_nat n + 1)%Z ->
  map fst (dict_after_row c0 row d)
  = columns (Nat.max n (Z.to_nat (c0 - 1) + length row)).
Proof.
  intros row. induction row as [|value row IH]; intros c0 d n Hk Hc.
  - simpl. rewrite Hk. f_equal. lia.
  - cbn [dict_after_row].
    destruct (Z.eq_dec c0 (Z.of_nat n + 1)) as [Hnew|Hold].
    + rewrite (IH _ _ (S n)).
      * f_equal. simpl length. lia.
      * rewrite dict_set_keys_new, Hk, columns_succ.
        -- f_equal. f_equal. lia.
        -- rewrite Hk, in_columns. lia.
      * lia.
    + rewrite (IH _ _ n).
      * f_equal. simpl length. lia.
      * rewrite dict_set_keys_in; [exact Hk|].
        rewrite Hk, in_columns. lia.
      * lia.
Qed.

Lemma dict_after_rows_spec : forall rws d n,
  (forall c, 0 <= dict_get d c 0)%Z ->
  map fst d = columns n ->
  map fst (dict_after_rows rws d) = columns (Nat.max n (longest_row rws))
  /\ forall c, (1 <= c)%Z ->
       dict_get (dict_after_rows rws d) c 0
       = Z.max (dict_get d c 0) (column_longest rws c).
Proof.
  intros rws. induction rws as [|r rws IH]; intros d n Hd Hk.
  - split.
    + simpl. rewrite Hk. f_equal. unfold longest_row. simpl. lia.
    + intros c _. specialize (Hd c). unfold column_longest. simpl. lia.
  - cbn [dict_after_rows].
    pose proof (dict_after_row_values r 1 d Hd) as Hget.
    pose proof (dict_after_row_keys r 1 d n Hk ltac:(lia)) as Hk1.
    assert (Hd1 : forall c, (0 <= dict_get (dict_after_row 1 r d) c 0)%Z).
    { intros c. rewrite Hget. specialize (Hd c). lia. }
    destruct (IH _ _ Hd1 Hk1) as (Hk' & Hget').
    split.
    + rewrite Hk'. f_equal. unfold longest_row. simpl. lia.
    + intros c Hc. rewrite (Hget' c Hc), Hget.
      destruct (Z.leb_spec 1 c); [|lia].
      unfold column_longest. cbn [map fold_right]. lia.
Qed.

Lemma dict_after_rows_sizes : forall rws,
  dict_after_rows rws [] = column_sizes rws.
Proof.
  intros rws.
  destruct (dict_after_rows_spec rws [] 0) as (Hk & Hget);
    [intros c; simpl; lia|reflexivity|].
  simpl Nat.max in Hk.
  rewrite (dict_as_map (dict_after_rows rws []) 0)
    by (rewrite Hk; apply columns_NoDup).
  rewrite Hk. unfold column_sizes. apply map_ext_in.
  intros c Hc. apply in_columns in Hc.
  rewrite (Hget c) by lia. simpl dict_get.
  pose proof (fold_right_max_nonneg
    (map (fun row => cell_longest row (Z.to_nat (c - 1))) rws)) as Hn.
  unfold column_longest in *. f_equal. lia.
Qed.

(** X11. The width of a text is the length of its longest line, the
    lines being those of [str.splitlines]; taking the maximum never meets
    an empty sequence, for a text that is not empty has a line. *)
Theorem text_width_longest_line : forall value,
  text_width (value_text value) = inr (longest_line (value_text value))
  /\ (0 <= longest_line (value_text value))%Z
  /\ (value_text value <> [] -> splitlines (value_text value) <> []).
Proof.
  intros value. split; [apply text_width_value|]. split.
  - apply longest_line_nonneg.
  - apply splitlines_nonempty.
Qed.

Example sample_sheet_sizes :
  column_sizes sample_sheet = [(1, 65); (2, 11); (3, 19)]%Z
  /\ map (fun kv => adjusted (snd kv)) (column_sizes sample_sheet)
     = [60; 13; 21]%Z.
Proof. split; vm_compute; reflexivity. Qed.

End ColumnWidths.

(** ** [_write_rows] over the library *)

Section WriteRowsFacts.

Variable Worksheet : Type.
Variable cell_write : Worksheet -> Z -> Z -> str -> result Worksheet.
Variable get_column_letter : Z -> result str.
Variable set_column_width : Worksheet -> str -> Z -> result Worksheet.
Variable set_freeze_panes : Worksheet -> string -> result Worksheet.

Lemma write_row_plan : forall row worksheet row_idx col_idx d,
  write_row Worksheet cell_write worksheet row_idx col_idx row d
  = (ws <- write_cells_of_row Worksheet cell_write worksheet row_idx
             col_idx row ;;
     ret (ws, dict_after_row col_idx row d)).
Proof.
  intros row. induction row as [|value row IH];
    intros worksheet row_idx col_idx d; [reflexivity|].
  cbn [write_row write_cells_of_row dict_after_row]. cbv zeta.
  destruct (cell_write worksheet row_idx col_idx (value_text value))
    as [e|ws1]; [reflexivity|].
  cbv beta iota delta [bind]. rewrite text_width_value. apply IH.
Qed.

Lemma write_all_rows_plan : forall rws worksheet row_idx d,
  write_all_rows Worksheet cell_write worksheet row_idx rws d
  = (ws <- write_cells Worksheet cell_write worksheet row_idx rws ;;
     ret (ws, dict_after_rows rws d)).
Proof.
  intros rws. induction rws as [|r rws IH]; intros worksheet row_idx d;
    [reflexivity|].
  cbn [write_all_rows write_cells dict_after_rows]. rewrite write_row_plan.
  destruct (write_cells_of_row Worksheet cell_write worksheet row_idx 1 r)
    as [e|ws1]; [reflexivity|].
  cbv beta iota delta [bind ret fst snd]. apply IH.
Qed.


End WriteRowsFacts.

(** ** Text and cells, continued *)

Section TextAndCells.

Lemma cell_text_concat : forall p p',
  concat p = concat p' -> cell_text p = cell_text p'.
Proof. intros p p' H. unfold cell_text. now rewrite H. Qed.

Lemma same_text_refl : forall s, same_text s s.
Proof. intros s. unfold same_text. repeat split. Qed.

Lemma handle_same_text : forall s s' e,
  same_text s s' -> same_text (handle s e) (handle s' e).
Proof.
  intros [t i c d r l rs cr ps] [t' i' c' d' r' l' rs' cr' ps'] e H.
  unfold same_text in H. fields.
  destruct H as (<- & <- & <- & <- & <- & <- & <- & <- & Hp).
  destruct e as [tag a|tag|data|tag a]; simpl.
  - unfold handle_starttag, starttag_in_table. fields.
    branches; unfold same_text; fields; repeat split;
      rewrite ?concat_app, ?Hp; reflexivity.
  - unfold handle_endtag. fields. rewrite (cell_text_concat ps ps' Hp).
    branches; unfold same_text; fields; repeat split;
      try discriminate; try reflexivity; try exact Hp.
  - unfold handle_data. fields.
    branches; unfold same_text; fields; repeat split;
      rewrite ?concat_app, ?Hp; reflexivity.
  - unfold handle_startendtag. fields.
    branches; unfold same_text; fields; repeat split;
      rewrite ?concat_app, ?Hp; reflexivity.
Qed.

Lemma feed_same_text : forall evs s s',
  same_text s s' -> same_text (feed s evs) (feed s' evs).
Proof.
  induction evs as [|e evs IH]; intros s s' H; [exact H|].
  rewrite !feed_cons. apply IH. now apply handle_same_text.
Qed.

Lemma handle_data_chunks : forall s d1 d2,
  same_text (handle (handle s (Data d1)) (Data d2)) (handle s (Data (d1 ++ d2))).
Proof.
  intros [t i c d r l rs cr ps] d1 d2. simpl. unfold handle_data. fields.
  destruct (c && l) eqn:E; fields; rewrite ?E; unfold same_text; fields;
    repeat split.
  rewrite !concat_app. simpl. now rewrite !app_nil_r, app_assoc.
Qed.

(** X13. The rows do not depend on how the text reaches the scanner: two
    consecutive text-data calls give the rows that one call with the two
    texts joined gives; and a line-break marker does to the state what the
    text of one line feed does. *)
Theorem text_chunking_irrelevant : forall s pre d1 d2 post,
  rows (feed s (pre ++ Data d1 :: Data d2 :: post))
  = rows (feed s (pre ++ Data (d1 ++ d2) :: post))
  /\ (forall tag a, is_tag "br" tag = true ->
       handle s (StartTag tag a) = handle s (Data [LF])).
Proof.
  intros s pre d1 d2 post. split.
  - rewrite !feed_app, !feed_cons.
    pose proof (feed_same_text post _ _
                  (handle_data_chunks (feed s pre) d1 d2)) as H.
    unfold same_text in H. tauto.
  - intros tag a H. pose proof (lower_tag_eq _ _ H) as Hl. simpl.
    unfold handle_starttag, starttag_in_table, handle_data, is_tag.
    rewrite Hl.
    change (PyStr.eqb (py "br") (py "table")) with false.
    change (PyStr.eqb (py "br") (py "tr")) with false.
    change (PyStr.eqb (py "br") (py "td")) with false.
    change (PyStr.eqb (py "br") (py "th")) with false.
    change (PyStr.eqb (py "br") (py "br")) with true.
    destruct (capture s), (in_cell s); reflexivity.
Qed.

Lemma handle_as_data_cell : forall s e, handle s (as_data_cell e) = handle s e.
Proof.
  intros s [tag a|tag|d|tag a]; simpl; try reflexivity.
  - destruct (is_tag "th" tag) eqn:H; [|reflexivity].
    pose proof (lower_tag_eq _ _ H) as Hl. simpl.
    unfold handle_starttag, starttag_in_table, is_tag. rewrite Hl.
    reflexivity.
  - destruct (is_tag "th" tag) eqn:H; [|reflexivity].
    pose proof (lower_tag_eq _ _ H) as Hl. simpl.
    unfold handle_endtag. rewrite Hl. reflexivity.
Qed.

(** X14. Header cells and data cells are the same to the scanner: with
    every th turned into td the markup brings it to the same state, so a
    header row comes out as an ordinary row. *)
Theorem header_cells_as_data_cells : forall evs s,
  feed s (map as_data_cell evs) = feed s evs.
Proof.
  induction evs as [|e evs IH]; intros s; [reflexivity|].
  cbn [map]. now rewrite !feed_cons, handle_as_data_cell, IH.
Qed.

End TextAndCells.
